(** * Stocky: the idempotent reward-to-ledger pipeline

    A shallow embedding of the reward service of the stock reward backend
    ([internal/services], [internal/repository], [internal/models]) and the
    properties of its fee calculator, ledger entry generator, idempotency
    gate and orchestrator.

    Go's [float64] is the kernel's binary64 [float]; [math.Abs] is [abs];
    [math.Round] is defined on the IEEE decomposition of its argument.  The
    relational tables the repositories write are fields of a [Store]; what a
    call cannot decide by itself (the clock, the price service, the user
    repository, a failing database round trip) is read from a [World]. *)

From Stdlib Require Import ZArith Lia Floats Reals Lra.
From stdpp Require Import gmap strings list.

Set Warnings "-inexact-float".

(** ** float64 *)

Module float64.

(** [math.Round]: the nearest integer, halves away from zero;
    [Round(±0) = ±0], [Round(±Inf) = ±Inf], [Round(NaN) = NaN].  A finite
    [x = ±m·2^e] with [e >= 0] is an integer already; with [e = -k < 0] the
    integer part of [m / 2^k] is [m >> k] and bit [k-1] of [m] says whether
    the fraction reaches one half. *)
Definition SFRound (x : spec_float) : spec_float :=
  match x with
  | S754_finite s m (Zneg k) =>
      let q := Z.shiftr (Zpos m) (Zpos k) in
      let n := if Z.testbit (Zpos m) (Zpos k - 1) then (q + 1)%Z else q in
      binary_normalize prec emax (if s then (- n)%Z else n) 0 s
  | _ => x
  end.

Definition Round (x : float) : float := SF2Prim (SFRound (Prim2SF x)).

(** Go's [x > 0], [x < 0], [x == 0] and [x >= 0] on float64. *)
Definition gt0 (x : float) : bool := PrimFloat.ltb 0 x.
Definition lt0 (x : float) : bool := PrimFloat.ltb x 0.
Definition eq0 (x : float) : bool := PrimFloat.eqb x 0.
Definition ge0 (x : float) : bool := PrimFloat.leb 0 x.

(** A float64 that is neither an infinity nor a NaN: every number a JSON
    document can carry. *)
Definition finite (x : float) : bool :=
  match Prim2SF x with
  | S754_zero _ | S754_finite _ _ _ => true
  | _ => false
  end.

(** [x] is [-y] up to the sign of a zero: what Go's [x == -y] says of two
    numbers. *)
Definition opposite (x y : float) : Prop :=
  x = (- y)%float \/ (eq0 x = true /\ eq0 y = true).

(** The same float64, bit for bit (all NaNs being one). *)
Definition SFidentical (x y : spec_float) : bool :=
  match x, y with
  | S754_zero s, S754_zero s' | S754_infinity s, S754_infinity s' => Bool.eqb s s'
  | S754_nan, S754_nan => true
  | S754_finite s m e, S754_finite s' m' e' => Bool.eqb s s' && Pos.eqb m m' && Z.eqb e e'
  | _, _ => false
  end.

Definition identical (x y : float) : bool := SFidentical (Prim2SF x) (Prim2SF y).

(** Go's [int(x)] on a 64-bit platform: the fraction is discarded.  What a
    NaN, an infinity or a value outside the range of [int64] converts to is
    left to the implementation; on amd64 it is [-2^63]. *)
Definition int (x : float) : Z :=
  match Prim2SF x with
  | S754_zero _ => 0
  | S754_finite s m e =>
      let n := cond_Zopp s (Z.shiftl (Zpos m) e) in
      if ((- 2 ^ 63 <=? n) && (n <? 2 ^ 63))%Z then n else (- 2 ^ 63)%Z
  | _ => (- 2 ^ 63)%Z
  end.

(** Go's [float64(n)] of an [int]: the nearest float64, ties to even. *)
Definition of_int (n : Z) : float := SF2Prim (binary_normalize prec emax n 0 false).

(** Go's [int64] arithmetic wraps around. *)
Definition int64 (z : Z) : Z := ((z + 2 ^ 63) mod 2 ^ 64 - 2 ^ 63)%Z.

Arguments Round : simpl never.
Arguments gt0 : simpl never.
Arguments lt0 : simpl never.
Arguments eq0 : simpl never.
Arguments ge0 : simpl never.
Arguments finite : simpl never.
Arguments int : simpl never.
Arguments of_int : simpl never.

End float64.

(** ** internal/models *)

(** [time.Time], as nanoseconds since the zero time. *)
Definition Time := Z.
Bind Scope Z_scope with Time.
Definition Time_IsZero (t : Time) : bool := Z.eqb t 0.

Module models.

Module Reward.
Record t := mk {
  ID : Z;
  UserID : string;
  StockSymbol : string;
  Quantity : float;
  EventType : string;
  EventID : string;
  EventTimestamp : Time;
  StockPrice : float;
  TotalValueINR : float;
  BrokerageFee : float;
  TransactionFee : float;
  NetValueINR : float;
  Status : string;
  Notes : option string;
  CreatedAt : Time;
  UpdatedAt : Time
}.
End Reward.

Module LedgerEntry.
Record t := mk {
  ID : Z;
  RewardID : Z;
  UserID : string;
  EntryType : string;
  AccountType : string;
  Amount : float;
  Currency : string;
  Description : option string;
  ReferenceID : option string;
  CreatedAt : Time
}.
End LedgerEntry.

(** The idempotency record of a reward request. *)
Module RewardRequest.
Record t := mk {
  ID : Z;
  EventID : string;
  UserID : string;
  StockSymbol : string;
  Quantity : float;
  RequestPayload : string;
  ResponsePayload : option string;
  Status : string;
  ProcessedAt : option Time;
  CreatedAt : Time;
  UpdatedAt : Time
}.
End RewardRequest.

End models.

(** ** internal/services: requests and responses *)

Module services.

Module RewardRequest.
Record t := mk {
  UserID : string;
  StockSymbol : string;
  Quantity : float;
  EventID : string;
  EventTimestamp : Time;
  EventType : string;
  Notes : string
}.
End RewardRequest.

Module RewardResponse.
Record t := mk {
  RewardID : Z;
  UserID : string;
  StockSymbol : string;
  Quantity : float;
  StockPrice : float;
  TotalValueINR : float;
  BrokerageFee : float;
  TransactionFee : float;
  NetValueINR : float;
  EventID : string;
  Status : string;
  Message : string;
  Timestamp : Time
}.

(** [response.Message = m] *)
Definition set_Message (m : string) (r : t) : t :=
  mk (RewardID r) (UserID r) (StockSymbol r) (Quantity r) (StockPrice r)
     (TotalValueINR r) (BrokerageFee r) (TransactionFee r) (NetValueINR r)
     (EventID r) (Status r) m (Timestamp r).
End RewardResponse.

(** The two configured percentages of a [RewardService]. *)
Record RewardService := mkRewardService {
  brokeragePercent : float;
  feePercent : float
}.

(** [NewRewardService] with neither environment variable set. *)
Definition NewRewardService : RewardService :=
  {| brokeragePercent := 0.1; feePercent := 0.05 |}.

(** A Go [error] is its message. *)
Definition error := string.

Definition validateRequest (req : RewardRequest.t) : option error :=
  if String.eqb (RewardRequest.UserID req) "" then Some "user_id is required"
  else if String.eqb (RewardRequest.StockSymbol req) "" then Some "stock_symbol is required"
  else if float64.eq0 (RewardRequest.Quantity req) then Some "quantity cannot be zero"
  else if String.eqb (RewardRequest.EventID req) "" then Some "event_id is required"
  else None.

Definition roundToTwoDecimals (value : float) : float :=
  (float64.Round (value * 100) / 100)%float.

Definition calculateBrokerage (rs : RewardService) (totalValue : float) : float :=
  let fee := (abs totalValue * (brokeragePercent rs / 100.0))%float in
  roundToTwoDecimals fee.

Definition calculateTransactionFee (rs : RewardService) (totalValue : float) : float :=
  let fee := (abs totalValue * (feePercent rs / 100.0))%float in
  roundToTwoDecimals fee.

(** *** PriceService *)

(** The configuration of a [PriceService] and the symbols it quotes. *)
Record PriceService := mkPriceService {
  minPrice : float;
  maxPrice : float;
  stocks : list string
}.

Section PriceService.

(** [os.Getenv], [strconv.ParseFloat(_, 64)], the runes [range] yields for a
    string, and the first [Float64()] of the [math/rand] source of a seed. *)
Variable os_Getenv : string -> string.
Variable strconv_ParseFloat : string -> option float.
Variable runes : string -> list Z.
Variable rand_Float64 : Z -> float.

Definition NewPriceService : PriceService :=
  let minPrice := 100.0%float in
  let maxPrice := 5000.0%float in
  let minPrice :=
    let min := os_Getenv "MOCK_PRICE_MIN" in
    if negb (String.eqb min "") then
      match strconv_ParseFloat min with Some val => val | None => minPrice end
    else minPrice in
  let maxPrice :=
    let max := os_Getenv "MOCK_PRICE_MAX" in
    if negb (String.eqb max "") then
      match strconv_ParseFloat max with Some val => val | None => maxPrice end
    else maxPrice in
  {| minPrice := minPrice; maxPrice := maxPrice;
     stocks := [ "AAPL"; "GOOGL"; "MSFT"; "TSLA"; "AMZN";
                 "META"; "NVDA"; "NFLX"; "AMD"; "INTC" ] |}.

(** [price := s.minPrice + r.Float64()*(s.maxPrice-s.minPrice)] and
    [float64(int(price*100)) / 100], for the draw [r] of the source. *)
Definition mockPrice (s : PriceService) (r : float) : float :=
  let price := (minPrice s + r * (maxPrice s - minPrice s))%float in
  (float64.of_int (float64.int (price * 100)) / 100)%float.

(** [now] is what [time.Now().Unix()] returns. *)
Definition generateMockPrice (s : PriceService) (now : Z) (symbol : string) : float :=
  let seed := fold_left (fun seed c => float64.int64 (seed + c)) (runes symbol) 0%Z in
  let seed := float64.int64 (seed + now) in
  mockPrice s (rand_Float64 seed).

Definition GetSupportedStocks (s : PriceService) : list string := stocks s.

(** The loop of [AddStock]: whether it returns before the [append]. *)
Fixpoint listed (symbol : string) (stocks : list string) : bool :=
  match stocks with
  | [] => false
  | existing :: stocks' => if String.eqb existing symbol then true else listed symbol stocks'
  end.

(** [AddStock]: the service afterwards and the lines it logged. *)
Definition AddStock (symbol : string) (s : PriceService) : PriceService * list (string * string) :=
  if listed symbol (stocks s) then (s, [])
  else ({| minPrice := minPrice s; maxPrice := maxPrice s; stocks := stocks s ++ [symbol] |},
        [("info", "Added new stock symbol: " +:+ symbol)]).

End PriceService.

(** *** Results, the tables and the world around one call *)

Inductive result (A : Type) : Type :=
| Ok (a : A)
| Err (e : error).
Arguments Ok {A} a.
Arguments Err {A} e.

(** The tables the repositories of the service write, and its log.
    [reward_requests] is keyed by [event_id], which the schema declares
    UNIQUE; the two [_seq] fields are the SERIAL counters. *)
Record Store := mkStore {
  reward_requests : gmap string models.RewardRequest.t;
  reward_requests_seq : Z;
  rewards : list models.Reward.t;
  rewards_seq : Z;
  ledger_entries : list models.LedgerEntry.t;
  log : list (string * string)
}.

Definition emptyStore : Store := mkStore ∅ 0 [] 0 [] [].

(** Two stores with the same tables (they may differ in their log). *)
Definition same_tables (st st' : Store) : Prop :=
  reward_requests st' = reward_requests st /\ reward_requests_seq st' = reward_requests_seq st /\
  rewards st' = rewards st /\ rewards_seq st' = rewards_seq st /\
  ledger_entries st' = ledger_entries st.

(** What one call of [ProcessReward] meets outside the service: what
    [time.Now()] returns at each of its three call sites and the database's
    [CURRENT_TIMESTAMP], the user repository and the price service (external
    collaborators), and for every database round trip of the reward
    repositories the error the driver reports, if it reports one. *)
Record World := mkWorld {
  time_Now_event : Time;
  time_Now_response : Time;
  time_Now_processed : Time;
  CURRENT_TIMESTAMP : Time;
  userRepo_Exists : string -> result bool;
  priceService_GetLatestPrice : string -> result float;
  fail_GetByEventID : option error;
  fail_requestCreate : option error;
  fail_rewardCreate : option error;
  fail_BulkCreate : option error;
  fail_MarkProcessed : option error
}.

(** Computations over the store that may return a Go error. *)
Definition M (A : Type) : Type := Store -> result A * Store.

Definition ret {A} (a : A) : M A := fun st => (Ok a, st).
Definition fail {A} (e : error) : M A := fun st => (Err e, st).
Definition bind {A B} (m : M A) (k : A -> M B) : M B :=
  fun st => match m st with
            | (Ok a, st') => k a st'
            | (Err e, st') => (Err e, st')
            end.
(** [if err := m; err != nil { ... }]: the error as a value. *)
Definition try {A} (m : M A) : M (result A) :=
  fun st => let '(r, st') := m st in (Ok r, st').

Notation "'do' x <- c1 ; c2" := (bind c1 (fun x => c2))
  (at level 10, x name, c1 at level 100, c2 at level 200).
Notation "'exec' c1 ; c2" := (bind c1 (fun _ => c2))
  (at level 10, c1 at level 100, c2 at level 200).

Definition logf (level msg : string) : M unit :=
  fun st => (Ok tt, mkStore (reward_requests st) (reward_requests_seq st) (rewards st)
                            (rewards_seq st) (ledger_entries st) (log st ++ [(level, msg)])).

(** *** internal/repository *)

Module rewardRequestRepo.

(** [INSERT INTO reward_requests (event_id, user_id, stock_symbol, quantity,
    request_payload, status) ... RETURNING id, created_at, updated_at]. *)
Definition row (w : World) (id : Z) (request : models.RewardRequest.t) : models.RewardRequest.t :=
  models.RewardRequest.mk id
    (models.RewardRequest.EventID request) (models.RewardRequest.UserID request)
    (models.RewardRequest.StockSymbol request) (models.RewardRequest.Quantity request)
    (models.RewardRequest.RequestPayload request) None
    (models.RewardRequest.Status request) None
    (CURRENT_TIMESTAMP w) (CURRENT_TIMESTAMP w).

Definition Create (w : World) (request : models.RewardRequest.t) : M unit :=
  fun st =>
    match fail_requestCreate w with
    | Some e => (Err e, st)
    | None =>
        match reward_requests st !! models.RewardRequest.EventID request with
        | Some _ => (Err "duplicate key value violates unique constraint", st)
        | None =>
            let id := (reward_requests_seq st + 1)%Z in
            (Ok tt, mkStore (<[models.RewardRequest.EventID request := row w id request]>
                               (reward_requests st))
                            id (rewards st) (rewards_seq st) (ledger_entries st) (log st))
        end
    end.

Definition GetByEventID (w : World) (eventID : string) : M models.RewardRequest.t :=
  fun st =>
    match fail_GetByEventID w with
    | Some e => (Err ("reward request not found: " +:+ e), st)
    | None =>
        match reward_requests st !! eventID with
        | Some request => (Ok request, st)
        | None => (Err "reward request not found: no rows in result set", st)
        end
    end.

(** [UPDATE reward_requests SET response_payload = $1, status = 'COMPLETED',
    processed_at = $2 WHERE event_id = $3]; a missing row is not an error. *)
Definition completed (w : World) (responsePayload : string)
    (r : models.RewardRequest.t) : models.RewardRequest.t :=
  models.RewardRequest.mk
    (models.RewardRequest.ID r) (models.RewardRequest.EventID r)
    (models.RewardRequest.UserID r) (models.RewardRequest.StockSymbol r)
    (models.RewardRequest.Quantity r) (models.RewardRequest.RequestPayload r)
    (Some responsePayload) "COMPLETED" (Some (time_Now_processed w))
    (models.RewardRequest.CreatedAt r) (CURRENT_TIMESTAMP w).

Definition MarkProcessed (w : World) (eventID responsePayload : string) : M unit :=
  fun st =>
    match fail_MarkProcessed w with
    | Some e => (Err e, st)
    | None =>
        (Ok tt, mkStore (alter (completed w responsePayload) eventID (reward_requests st))
                        (reward_requests_seq st) (rewards st) (rewards_seq st)
                        (ledger_entries st) (log st))
    end.

End rewardRequestRepo.

Module rewardRepo.

(** [INSERT INTO rewards ... RETURNING id, created_at, updated_at];
    [event_id] is UNIQUE in [rewards] too. *)
Definition row (w : World) (id : Z) (reward : models.Reward.t) : models.Reward.t :=
  models.Reward.mk id
    (models.Reward.UserID reward) (models.Reward.StockSymbol reward)
    (models.Reward.Quantity reward) (models.Reward.EventType reward)
    (models.Reward.EventID reward) (models.Reward.EventTimestamp reward)
    (models.Reward.StockPrice reward) (models.Reward.TotalValueINR reward)
    (models.Reward.BrokerageFee reward) (models.Reward.TransactionFee reward)
    (models.Reward.NetValueINR reward) (models.Reward.Status reward)
    (models.Reward.Notes reward)
    (CURRENT_TIMESTAMP w) (CURRENT_TIMESTAMP w).

Definition Create (w : World) (reward : models.Reward.t) : M models.Reward.t :=
  fun st =>
    match fail_rewardCreate w with
    | Some e => (Err ("failed to create reward: " +:+ e), st)
    | None =>
        if existsb (fun r => String.eqb (models.Reward.EventID r) (models.Reward.EventID reward))
                   (rewards st)
        then (Err "failed to create reward: duplicate key value violates unique constraint", st)
        else
          let id := (rewards_seq st + 1)%Z in
          (Ok (row w id reward),
           mkStore (reward_requests st) (reward_requests_seq st)
                   (rewards st ++ [row w id reward]) id (ledger_entries st) (log st))
    end.

(** [SELECT ... FROM rewards WHERE event_id = $1]; [driver] is the error
    the driver reports for the round trip, if it reports one. *)
Definition GetByEventID (driver : option error) (eventID : string) : M models.Reward.t :=
  fun st =>
    match driver with
    | Some e => (Err ("reward not found: " +:+ e), st)
    | None =>
        match List.find (fun r => String.eqb (models.Reward.EventID r) eventID) (rewards st) with
        | Some reward => (Ok reward, st)
        | None => (Err "reward not found: no rows in result set", st)
        end
    end.

End rewardRepo.

Module ledgerRepo.

(** One batch, taken as all or nothing: either every entry is inserted or
    the error of the first failing statement comes back and none is. *)
Definition BulkCreate (w : World) (entries : list models.LedgerEntry.t) : M unit :=
  fun st =>
    if Nat.eqb (length entries) 0 then (Ok tt, st)
    else
      match fail_BulkCreate w with
      | Some e => (Err ("failed to insert ledger entry: " +:+ e), st)
      | None =>
          (Ok tt, mkStore (reward_requests st) (reward_requests_seq st) (rewards st)
                          (rewards_seq st) (ledger_entries st ++ entries) (log st))
      end.

Section ValidateBalance.

(** PostgreSQL's [DECIMAL(15,2)]: the value an [amount] column holds for a
    float64 parameter, [COALESCE(SUM(amount), 0)] selected into a
    [DECIMAL(15,2)] variable (which raises when the sum does not fit), and
    [=] on two such values. *)
Variable numeric : Type.
Variable to_numeric : float -> numeric.
Variable coalesce_sum : list numeric -> result numeric.
Variable numeric_eq : numeric -> numeric -> bool.

(** [SELECT COALESCE(SUM(amount), 0) FROM ledger_entries
     WHERE reward_id = p_reward_id AND entry_type = ...]. *)
Definition side_total (p_reward_id : Z) (entry_type : string) (st : Store) : result numeric :=
  coalesce_sum
    (map (fun e => to_numeric (models.LedgerEntry.Amount e))
         (List.filter (fun e => Z.eqb (models.LedgerEntry.RewardID e) p_reward_id
                                && String.eqb (models.LedgerEntry.EntryType e) entry_type)
                      (ledger_entries st))).

(** The function [validate_ledger_balance] of the second migration. *)
Definition validate_ledger_balance (p_reward_id : Z) (st : Store) : result bool :=
  match side_total p_reward_id "DEBIT" st with
  | Err e => Err e
  | Ok v_debit_total =>
      match side_total p_reward_id "CREDIT" st with
      | Err e => Err e
      | Ok v_credit_total => Ok (numeric_eq v_debit_total v_credit_total)
      end
  end.

(** [SELECT validate_ledger_balance($1)]: [isBalanced] and [err]. *)
Definition ValidateBalance (driver : option error) (rewardID : Z) (st : Store)
  : bool * option error :=
  match driver with
  | Some e => (false, Some e)
  | None =>
      match validate_ledger_balance rewardID st with
      | Ok isBalanced => (isBalanced, None)
      | Err e => (false, Some e)
      end
  end.

End ValidateBalance.

End ledgerRepo.

(** *** RewardService *)

Section RewardService.

(** The formatting verbs of [fmt] the service uses ([%.Nf] and [%d]) and the
    JSON codec of [encoding/json] at the two payload types. *)
Variable fmt_f : nat -> float -> string.
Variable fmt_d : Z -> string.
Variable json_Marshal_request : RewardRequest.t -> option string.
Variable json_Marshal_response : RewardResponse.t -> option string.
Variable json_Unmarshal_response : string -> option RewardResponse.t.

(** [string(payload)] after [payload, _ := json.Marshal(v)]. *)
Definition payload_string (payload : option string) : string := default "" payload.

Variable rs : RewardService.

(** The slice [entries] that [createLedgerEntries] hands to [BulkCreate]. *)
Definition ledgerEntries (reward : models.Reward.t) : list models.LedgerEntry.t :=
  let entry (entryType accountType : string) (amount : float) (description : string) :=
    models.LedgerEntry.mk 0 (models.Reward.ID reward) (models.Reward.UserID reward)
      entryType accountType amount "INR" (Some description)
      (Some (models.Reward.EventID reward)) 0%Z in
  if float64.gt0 (models.Reward.Quantity reward) then
    let stockAssetDesc :=
      "Stock reward: " +:+ models.Reward.StockSymbol reward +:+ " x "
        +:+ fmt_f 6 (models.Reward.Quantity reward) +:+ " @ "
        +:+ fmt_f 2 (models.Reward.StockPrice reward) +:+ " INR" in
    let rewardIncomeDesc := "Reward income for event " +:+ models.Reward.EventID reward in
    let brokerageDesc := "Brokerage fee for " +:+ models.Reward.EventID reward in
    let feeDesc := "Transaction fee for " +:+ models.Reward.EventID reward in
    [ entry "DEBIT" "STOCK_ASSET" (models.Reward.TotalValueINR reward) stockAssetDesc;
      entry "CREDIT" "REWARD_INCOME" (models.Reward.TotalValueINR reward) rewardIncomeDesc ]
    ++ (if float64.gt0 (models.Reward.BrokerageFee reward) then
          [ entry "DEBIT" "BROKERAGE_EXPENSE" (models.Reward.BrokerageFee reward) brokerageDesc;
            entry "CREDIT" "CASH" (models.Reward.BrokerageFee reward) brokerageDesc ]
        else [])
    ++ (if float64.gt0 (models.Reward.TransactionFee reward) then
          [ entry "DEBIT" "FEE_EXPENSE" (models.Reward.TransactionFee reward) feeDesc;
            entry "CREDIT" "CASH" (models.Reward.TransactionFee reward) feeDesc ]
        else [])
  else
    let stockAssetDesc :=
      "Stock adjustment: " +:+ models.Reward.StockSymbol reward +:+ " x "
        +:+ fmt_f 6 (models.Reward.Quantity reward) +:+ " @ "
        +:+ fmt_f 2 (models.Reward.StockPrice reward) +:+ " INR" in
    let adjustmentDesc := "Stock adjustment for event " +:+ models.Reward.EventID reward in
    [ entry "CREDIT" "STOCK_ASSET" (abs (models.Reward.TotalValueINR reward)) stockAssetDesc;
      entry "DEBIT" "ADJUSTMENT_EXPENSE" (abs (models.Reward.TotalValueINR reward)) adjustmentDesc ].

Definition createLedgerEntries (w : World) (reward : models.Reward.t) : M unit :=
  ledgerRepo.BulkCreate w (ledgerEntries reward).

(** Step 6 and the [Reward] literal of step 7. *)
Definition newReward (w : World) (req : RewardRequest.t) (price : float) : models.Reward.t :=
  let totalValueINR := (RewardRequest.Quantity req * price)%float in
  let brokerageFee := calculateBrokerage rs totalValueINR in
  let transactionFee := calculateTransactionFee rs totalValueINR in
  let netValueINR :=
    if float64.lt0 (RewardRequest.Quantity req)
    then (totalValueINR + brokerageFee + transactionFee)%float
    else (totalValueINR - brokerageFee - transactionFee)%float in
  let eventTimestamp :=
    if Time_IsZero (RewardRequest.EventTimestamp req) then time_Now_event w
    else RewardRequest.EventTimestamp req in
  let eventType :=
    if String.eqb (RewardRequest.EventType req) "" then "REWARD"
    else RewardRequest.EventType req in
  let notes :=
    if String.eqb (RewardRequest.Notes req) "" then None
    else Some (RewardRequest.Notes req) in
  models.Reward.mk 0 (RewardRequest.UserID req) (RewardRequest.StockSymbol req)
    (RewardRequest.Quantity req) eventType (RewardRequest.EventID req) eventTimestamp
    price totalValueINR brokerageFee transactionFee netValueINR "COMPLETED" notes 0%Z 0%Z.

(** The [RewardResponse] literal of step 9. *)
Definition newResponse (w : World) (createdReward : models.Reward.t) : RewardResponse.t :=
  RewardResponse.mk (models.Reward.ID createdReward) (models.Reward.UserID createdReward)
    (models.Reward.StockSymbol createdReward) (models.Reward.Quantity createdReward)
    (models.Reward.StockPrice createdReward) (models.Reward.TotalValueINR createdReward)
    (models.Reward.BrokerageFee createdReward) (models.Reward.TransactionFee createdReward)
    (models.Reward.NetValueINR createdReward) (models.Reward.EventID createdReward)
    "SUCCESS" "Reward processed successfully" (time_Now_response w).

(** The [models.RewardRequest] literal of step 4. *)
Definition newRewardRequest (req : RewardRequest.t) : models.RewardRequest.t :=
  models.RewardRequest.mk 0 (RewardRequest.EventID req) (RewardRequest.UserID req)
    (RewardRequest.StockSymbol req) (RewardRequest.Quantity req)
    (payload_string (json_Marshal_request req)) None "PROCESSING" None 0%Z 0%Z.

(** The record step 4 inserts and the reward row step 7 inserts, in the
    store they are inserted into. *)
Definition pending (w : World) (st : Store) (req : RewardRequest.t) : models.RewardRequest.t :=
  rewardRequestRepo.row w (reward_requests_seq st + 1) (newRewardRequest req).

Definition created (w : World) (st : Store) (req : RewardRequest.t) (price : float) : models.Reward.t :=
  rewardRepo.row w (rewards_seq st + 1) (newReward w req price).

(** Step 2 once [GetByEventID] has found a record. *)
Definition replay (existingRequest : models.RewardRequest.t) : M RewardResponse.t :=
  match String.eqb (models.RewardRequest.Status existingRequest) "COMPLETED",
        models.RewardRequest.ResponsePayload existingRequest with
  | true, Some payload =>
      match json_Unmarshal_response payload with
      | Some response =>
          ret (RewardResponse.set_Message "Duplicate request - returning previous result" response)
      | None => fail "request already processing or failed"
      end
  | _, _ => fail "request already processing or failed"
  end.

(** Steps 5 to 9, after the idempotency record has been created. *)
Definition settle (w : World) (req : RewardRequest.t) : M RewardResponse.t :=
  match priceService_GetLatestPrice w (RewardRequest.StockSymbol req) with
  | Err err =>
      exec logf "error" ("Failed to get price for " +:+ RewardRequest.StockSymbol req +:+ ": " +:+ err);
      fail ("failed to get stock price: " +:+ err)
  | Ok price =>
      do created <- try (rewardRepo.Create w (newReward w req price));
      match created with
      | Err err => fail ("failed to create reward: " +:+ err)
      | Ok createdReward =>
          do ledgered <- try (createLedgerEntries w createdReward);
          exec (match ledgered with
                | Err err => logf "error" ("Failed to create ledger entries: " +:+ err)
                | Ok _ => ret tt
                end);
          let response := newResponse w createdReward in
          let responseStr := payload_string (json_Marshal_response response) in
          do marked <- try (rewardRequestRepo.MarkProcessed w (RewardRequest.EventID req) responseStr);
          exec (match marked with
                | Err err => logf "error" ("Failed to mark request as processed: " +:+ err)
                | Ok _ => ret tt
                end);
          exec logf "info" ("Successfully processed reward " +:+ fmt_d (models.Reward.ID createdReward)
                              +:+ " for user " +:+ RewardRequest.UserID req);
          ret response
      end
  end.

Definition ProcessReward (w : World) (req : RewardRequest.t) : M RewardResponse.t :=
  exec logf "info" ("Processing reward request for user " +:+ RewardRequest.UserID req
                      +:+ ", event " +:+ RewardRequest.EventID req);
  match validateRequest req with
  | Some err => fail ("validation failed: " +:+ err)
  | None =>
      do existing <- try (rewardRequestRepo.GetByEventID w (RewardRequest.EventID req));
      match existing with
      | Ok existingRequest =>
          exec logf "warning" ("Duplicate request detected for event " +:+ RewardRequest.EventID req);
          replay existingRequest
      | Err _ =>
          match userRepo_Exists w (RewardRequest.UserID req) with
          | Err err => fail ("failed to check user existence: " +:+ err)
          | Ok false => fail ("user " +:+ RewardRequest.UserID req +:+ " does not exist")
          | Ok true =>
              do reserved <- try (rewardRequestRepo.Create w (newRewardRequest req));
              match reserved with
              | Err err => fail ("failed to create idempotency record: " +:+ err)
              | Ok _ => settle w req
              end
          end
      end
  end.

End RewardService.


End services.

(** ** Vocabulary of the properties *)

(** The sum of the amounts of one side of a set of ledger entries, as
    [validate_ledger_balance] takes it for a reward. *)
Module ledger.

Definition amounts (entryType : string) (entries : list models.LedgerEntry.t) : list float :=
  map models.LedgerEntry.Amount
      (List.filter (fun e => String.eqb (models.LedgerEntry.EntryType e) entryType) entries).

Definition sum (l : list float) : float := fold_left PrimFloat.add l 0%float.

Definition total (entryType : string) (entries : list models.LedgerEntry.t) : float :=
  sum (amounts entryType entries).

(** The amounts of one side of the entries of one reward, in the order of
    the table. *)
Definition side (rewardID : Z) (entryType : string) (entries : list models.LedgerEntry.t)
  : list float :=
  map models.LedgerEntry.Amount
      (List.filter (fun e => Z.eqb (models.LedgerEntry.RewardID e) rewardID
                             && String.eqb (models.LedgerEntry.EntryType e) entryType)
                   entries).

(** What a ledger entry says, without its description. *)
Definition posting (e : models.LedgerEntry.t) : string * string * float :=
  (models.LedgerEntry.EntryType e, models.LedgerEntry.AccountType e, models.LedgerEntry.Amount e).

End ledger.

(** The idempotency gate seen as a state machine on the table
    [reward_requests]: [reserve] adds a PROCESSING record under a free event
    identifier, [complete] turns a PROCESSING record into a COMPLETED one. *)
Module gate.

Definition status (m : gmap string models.RewardRequest.t) (eventID : string) : option string :=
  models.RewardRequest.Status <$> m !! eventID.

Inductive step (m : gmap string models.RewardRequest.t) : gmap string models.RewardRequest.t -> Prop :=
| reserve eventID r :
    m !! eventID = None ->
    models.RewardRequest.Status r = "PROCESSING" ->
    step m (<[eventID := r]> m)
| complete eventID r r' :
    m !! eventID = Some r ->
    models.RewardRequest.Status r = "PROCESSING" ->
    models.RewardRequest.Status r' = "COMPLETED" ->
    step m (<[eventID := r']> m).

Inductive steps (m : gmap string models.RewardRequest.t) : gmap string models.RewardRequest.t -> Prop :=
| steps_refl : steps m m
| steps_cons m1 m2 : step m m1 -> steps m1 m2 -> steps m m2.

(** No record has a status other than the two of the state machine. *)
Definition two_statuses (m : gmap string models.RewardRequest.t) : Prop :=
  forall eventID r, m !! eventID = Some r ->
    models.RewardRequest.Status r = "PROCESSING" \/ models.RewardRequest.Status r = "COMPLETED".

(** One move of a record's status along [∅ → PROCESSING → COMPLETED]. *)
Definition moves (a b : option string) : Prop :=
  a = b \/ (a = None /\ b = Some "PROCESSING") \/ (a = Some "PROCESSING" /\ b = Some "COMPLETED").

End gate.

Section Runs.

Variable fmt_f : nat -> float -> string.
Variable fmt_d : Z -> string.
Variable json_Marshal_request : services.RewardRequest.t -> option string.
Variable json_Marshal_response : services.RewardResponse.t -> option string.
Variable json_Unmarshal_response : string -> option services.RewardResponse.t.
Variable rs : services.RewardService.

Definition process : services.World -> services.RewardRequest.t -> services.M services.RewardResponse.t :=
  services.ProcessReward fmt_f fmt_d json_Marshal_request json_Marshal_response
    json_Unmarshal_response rs.

(** A sequence of calls, each in its own world, and what each returned. *)
Fixpoint run (calls : list (services.World * services.RewardRequest.t)) (st : services.Store)
  : list (services.RewardRequest.t * services.result services.RewardResponse.t) * services.Store :=
  match calls with
  | [] => ([], st)
  | (w, req) :: calls' =>
      let '(res, st') := process w req st in
      let '(out, st'') := run calls' st' in
      ((req, res) :: out, st'')
  end.

(** The stores the service can bring about from the empty tables. *)
Definition reachable (st : services.Store) : Prop :=
  exists calls, snd (run calls services.emptyStore) = st.

End Runs.

(** A reward as the service prices it. *)
Definition priced (rs : services.RewardService) (r : models.Reward.t) : Prop :=
  models.Reward.TotalValueINR r = (models.Reward.Quantity r * models.Reward.StockPrice r)%float /\
  models.Reward.BrokerageFee r = services.calculateBrokerage rs (models.Reward.TotalValueINR r) /\
  models.Reward.TransactionFee r = services.calculateTransactionFee rs (models.Reward.TotalValueINR r) /\
  (float64.gt0 (models.Reward.Quantity r) = true ->
   models.Reward.NetValueINR r =
     (models.Reward.TotalValueINR r - models.Reward.BrokerageFee r - models.Reward.TransactionFee r)%float) /\
  (float64.lt0 (models.Reward.Quantity r) = true ->
   models.Reward.NetValueINR r =
     (models.Reward.TotalValueINR r + models.Reward.BrokerageFee r + models.Reward.TransactionFee r)%float).

(** What ties the three tables of a store together: a reward keeps the
    identifier its SERIAL column gave it, no two rewards share an identifier
    or an event, every reward has the idempotency record of its event, every
    ledger entry is one of the entries of a reward of the store, and every
    COMPLETED record has its reward and caches the response built from it. *)
Section Integrity.

Variable fmt_f : nat -> float -> string.
Variable json_Marshal_response : services.RewardResponse.t -> option string.

(** The idempotency record [rec] is the one of the request that [r] rewards. *)
Definition reserved_by (rec : models.RewardRequest.t) (r : models.Reward.t) : Prop :=
  models.RewardRequest.EventID rec = models.Reward.EventID r /\
  models.RewardRequest.UserID rec = models.Reward.UserID r /\
  models.RewardRequest.StockSymbol rec = models.Reward.StockSymbol r /\
  models.RewardRequest.Quantity rec = models.Reward.Quantity r.

Record integrity (st : services.Store) : Prop := mkIntegrity {
  reward_ids_issued :
    Forall (fun r => (models.Reward.ID r <= services.rewards_seq st)%Z) (services.rewards st);
  reward_ids_distinct : NoDup (map models.Reward.ID (services.rewards st));
  reward_events_distinct : NoDup (map models.Reward.EventID (services.rewards st));
  rewards_reserved : forall r, r ∈ services.rewards st ->
    exists rec, services.reward_requests st !! models.Reward.EventID r = Some rec /\ reserved_by rec r;
  entries_owned : forall e, e ∈ services.ledger_entries st ->
    exists r, r ∈ services.rewards st /\ e ∈ services.ledgerEntries fmt_f r;
  completed_rewarded : forall eventID rec,
    services.reward_requests st !! eventID = Some rec ->
    models.RewardRequest.Status rec = "COMPLETED" ->
    exists r w, r ∈ services.rewards st /\ models.Reward.EventID r = eventID /\
      reserved_by rec r /\
      models.RewardRequest.ResponsePayload rec =
        Some (services.payload_string (json_Marshal_response (services.newResponse w r)))
}.

End Integrity.

(** ** binary64 rounding

    The vocabulary in which the rounding of [SpecFloat] is specified: reals
    of the form [m·2^e], the location of a real between two of them, and
    what it means for a mantissa to be a nearest one. *)

Module ieee.

Local Open Scope R_scope.

Definition bpow (e : Z) : R := powerRZ 2 e.
Definition F2R (m e : Z) : R := IZR m * bpow e.

(** Where a real lies in [[m·2^e, (m+1)·2^e)], as a [location] tells it. *)
Definition inbetween (m e : Z) (l : location) (v : R) : Prop :=
  match l with
  | loc_Exact => v = F2R m e
  | loc_Inexact Lt => F2R m e < v < F2R m e + bpow e / 2
  | loc_Inexact Eq => v = F2R m e + bpow e / 2
  | loc_Inexact Gt => F2R m e + bpow e / 2 < v < F2R m e + bpow e
  end.

(** The invariant of the right shifts: a non-negative mantissa whose
    record locates [v] at the current exponent. *)
Definition locates (v : R) (e : Z) (mrs : shr_record) : Prop :=
  (0 <= shr_m mrs)%Z /\ inbetween (shr_m mrs) e (loc_of_shr_record mrs) v.

(** [m1·2^e] is a nearest point to [v] of the grid [2^e·Z], and no grid
    point lies strictly between them. *)
Definition nearest (v : R) (e m1 : Z) : Prop :=
  Rabs (F2R m1 e - v) <= bpow e / 2 /\
  (forall k, F2R k e <= v -> (k <= m1)%Z) /\
  (forall k, v <= F2R k e -> (m1 <= k)%Z).

(** The binade of [v]: its canonical exponent is [e]. *)
Definition binade (v : R) (e : Z) : Prop :=
  (-1074 <= e)%Z /\ v < bpow (e + 53) /\ (e = (-1074)%Z \/ bpow (e + 52) <= v).

(** The float a rounded mantissa [m <= 2^53] at exponent [e] is packed
    into. *)
Definition pack (s : bool) (m e : Z) : spec_float :=
  if (m =? 0)%Z then S754_zero s
  else if (m <? 2 ^ 53)%Z then
    if (e <=? emax - prec)%Z then S754_finite s (Z.to_pos m) e else S754_infinity s
  else
    if (e + 1 <=? emax - prec)%Z then S754_finite s (Z.to_pos (2 ^ 52)) (e + 1) else S754_infinity s.

(** A rounded result keeps the sign it was given and is never a NaN. *)
Definition signed (s : bool) (x : spec_float) : Prop :=
  match x with
  | S754_zero s' | S754_infinity s' | S754_finite s' _ _ => s' = s
  | S754_nan => False
  end.

(** The float64 [100]. *)
Definition hundred : spec_float := S754_finite false 7036874417766400 (-46).

(** The float64s [4900] and [5000]: the width and the upper end of the
    default price range. *)
Definition c4900 : spec_float := S754_finite false 5387606976102400 (-40).
Definition c5000 : spec_float := S754_finite false 5497558138880000 (-40).

(** Two results of a rounding that are equal, or both a zero. *)
Definition alike (x y : spec_float) : Prop :=
  x = y \/ (exists s, x = S754_zero s) /\ (exists s, y = S754_zero s).

(** [m / 2^k] rounded to the nearest integer, halves up. *)
Definition half_up (m k : Z) : Z := (m + 2 ^ (k - 1)) / 2 ^ k.

(** [roundToTwoDecimals] on the IEEE decomposition of its argument. *)
Definition SFround2 (x : spec_float) : spec_float :=
  SF64div (float64.SFRound (SF64mul x hundred)) hundred.

End ieee.

(** ** A worked example

    The request of the documentation ([quantity 10.5] of AAPL at [175.50]),
    worlds in which everything works, the ledger insert fails or the price
    service is down, and a codec that knows one payload. *)

Module demo.

Definition fmt_f (prec : nat) (x : float) : string := "".
Definition fmt_d (n : Z) : string := "".

Definition rs : services.RewardService := services.NewRewardService.

Definition world (price : services.result float) (bulk : option services.error) : services.World :=
  services.mkWorld 1000 1002 1003 1001 (fun _ => services.Ok true) (fun _ => price)
    None None None bulk None.

Definition w_ok : services.World := world (services.Ok 175.5%float) None.
Definition w_ledger_down : services.World := world (services.Ok 175.5%float) (Some "connection reset").
Definition w_price_down : services.World := world (services.Err "no price") None.
Definition w_lookup_down : services.World :=
  services.mkWorld 1000 1002 1003 1001 (fun _ => services.Ok true)
    (fun _ => services.Ok 175.5%float) (Some "connection refused") None None None None.

Definition req : services.RewardRequest.t :=
  services.RewardRequest.mk "USR001" "AAPL" 10.5 "EVT-2024-001" 0 "" "".

(** The same event identifier submitted again without a user. *)
Definition req_no_user : services.RewardRequest.t :=
  services.RewardRequest.mk "" "AAPL" 10.5 "EVT-2024-001" 0 "" "".

(** An adjustment: [quantity -5] at [100.00]. *)
Definition adjustment : services.RewardRequest.t :=
  services.RewardRequest.mk "USR001" "AAPL" (-5) "EVT-ADJ-001" 0 "ADJUSTMENT" "".

Definition reward : models.Reward.t := services.created rs w_ok services.emptyStore req 175.5.
Definition response : services.RewardResponse.t := services.newResponse w_ok reward.

Definition json_Marshal_request (r : services.RewardRequest.t) : option string := Some "{request}".
Definition json_Marshal_response (r : services.RewardResponse.t) : option string := Some "{response}".
Definition json_Unmarshal_response (payload : string) : option services.RewardResponse.t :=
  if String.eqb payload "{response}" then Some response else None.

Definition process : services.World -> services.RewardRequest.t -> services.M services.RewardResponse.t :=
  process fmt_f fmt_d json_Marshal_request json_Marshal_response json_Unmarshal_response rs.

(** The store after the request was processed once. *)
Definition processed : services.Store := snd (process w_ok req services.emptyStore).

(** The store after the request was reserved and the price service failed. *)
Definition stuck : services.Store := snd (process w_price_down req services.emptyStore).

(** A world in which the completion of the idempotency record fails. *)
Definition w_mark_down : services.World :=
  services.mkWorld 1000 1002 1003 1001 (fun _ => services.Ok true)
    (fun _ => services.Ok 175.5%float) None None None None (Some "connection reset").

(** The request taken back: the same quantity with the opposite sign. *)
Definition clawback : services.RewardRequest.t :=
  services.RewardRequest.mk "USR001" "AAPL" (-10.5) "EVT-2024-002" 0 "ADJUSTMENT" "".

(** Whether two responses are the same value, and a codec that encodes the
    response of the example and no other. *)
Definition same_response (a b : services.RewardResponse.t) : bool :=
  Z.eqb (services.RewardResponse.RewardID a) (services.RewardResponse.RewardID b)
  && String.eqb (services.RewardResponse.UserID a) (services.RewardResponse.UserID b)
  && String.eqb (services.RewardResponse.StockSymbol a) (services.RewardResponse.StockSymbol b)
  && float64.identical (services.RewardResponse.Quantity a) (services.RewardResponse.Quantity b)
  && float64.identical (services.RewardResponse.StockPrice a) (services.RewardResponse.StockPrice b)
  && float64.identical (services.RewardResponse.TotalValueINR a)
       (services.RewardResponse.TotalValueINR b)
  && float64.identical (services.RewardResponse.BrokerageFee a)
       (services.RewardResponse.BrokerageFee b)
  && float64.identical (services.RewardResponse.TransactionFee a)
       (services.RewardResponse.TransactionFee b)
  && float64.identical (services.RewardResponse.NetValueINR a)
       (services.RewardResponse.NetValueINR b)
  && String.eqb (services.RewardResponse.EventID a) (services.RewardResponse.EventID b)
  && String.eqb (services.RewardResponse.Status a) (services.RewardResponse.Status b)
  && String.eqb (services.RewardResponse.Message a) (services.RewardResponse.Message b)
  && Z.eqb (services.RewardResponse.Timestamp a) (services.RewardResponse.Timestamp b).

Definition json_Marshal_known (r : services.RewardResponse.t) : option string :=
  if same_response r response then Some "{response}" else None.

(** A price service started with an empty environment, symbols in ASCII and
    a source that draws one half. *)
Definition prices : services.PriceService :=
  services.NewPriceService (fun _ => "") (fun _ => None).
Definition runes (symbol : string) : list Z :=
  map (fun c => Z.of_N (Ascii.N_of_ascii c)) (String.list_ascii_of_string symbol).
Definition rand_Float64 (seed : Z) : float := 0.5%float.

(** [DECIMAL(15,2)] as a number of hundredths. *)
Definition to_numeric (x : float) : Z := float64.int (float64.Round (x * 100)).
Definition coalesce_sum (l : list Z) : services.result Z :=
  let total := fold_left Z.add l 0%Z in
  if (Z.abs total <? 10 ^ 15)%Z then services.Ok total
  else services.Err "numeric field overflow".

End demo.

(** * Properties *)

(** ** Comparisons with zero *)

Module float64_facts.
Import float64.

Lemma Prim2SF_zero : Prim2SF 0 = S754_zero false.
Proof. reflexivity. Qed.

Lemma gt0_SF x : gt0 x = SFltb (S754_zero false) (Prim2SF x).
Proof. unfold gt0. now rewrite FloatAxioms.ltb_spec. Qed.

Lemma lt0_SF x : lt0 x = SFltb (Prim2SF x) (S754_zero false).
Proof. unfold lt0. now rewrite FloatAxioms.ltb_spec. Qed.

Lemma ge0_SF x : ge0 x = SFleb (S754_zero false) (Prim2SF x).
Proof. unfold ge0. now rewrite FloatAxioms.leb_spec. Qed.

Lemma eq0_SF x : eq0 x = SFeqb (Prim2SF x) (S754_zero false).
Proof. unfold eq0. now rewrite FloatAxioms.eqb_spec. Qed.

Ltac by_sign x :=
  rewrite ?gt0_SF, ?lt0_SF, ?ge0_SF, ?eq0_SF in *;
  destruct (Prim2SF x) as [[|]|[|]| |[|] ? ?]; cbn in *; congruence.

Lemma gt0_not_lt0 x : gt0 x = true -> lt0 x = false.
Proof. intros H. by_sign x. Qed.

Lemma lt0_not_gt0 x : lt0 x = true -> gt0 x = false.
Proof. intros H. by_sign x. Qed.

Lemma gt0_ge0 x : gt0 x = true -> ge0 x = true.
Proof. intros H. by_sign x. Qed.

Lemma gt0_not_eq0 x : gt0 x = true -> eq0 x = false.
Proof. intros H. by_sign x. Qed.

Lemma lt0_not_eq0 x : lt0 x = true -> eq0 x = false.
Proof. intros H. by_sign x. Qed.

End float64_facts.

(** ** binary64 rounding

    [binary_round_aux], through which [SFmul] and [SFdiv] round, returns the
    packing of a mantissa nearest to the exact result on the grid of its
    binade ([binary_round_aux_spec]).  From it: the product by one hundred and
    the quotient by one hundred of a float, [math.Round] as a half-up integer
    division, the exact float of an integer below [2^53], and with these the
    idempotence of [roundToTwoDecimals] while the scaled value stays below
    [2^51]; and the sign of a product. *)

Module ieee_facts.

Import ieee float64 float64_facts.

Local Open Scope R_scope.

Lemma bpow_pos e : 0 < bpow e.
Proof. apply powerRZ_lt. lra. Qed.

Lemma bpow_add a b : bpow (a + b) = bpow a * bpow b.
Proof. apply powerRZ_add. lra. Qed.

Lemma bpow_succ e : bpow (e + 1) = 2 * bpow e.
Proof. rewrite bpow_add. change (bpow 1) with (2 * 1). lra. Qed.

Lemma bpow_0 : bpow 0 = 1.
Proof. reflexivity. Qed.

Lemma bpow_IZR k : (0 <= k)%Z -> bpow k = IZR (2 ^ k).
Proof.
  revert k. apply natlike_ind; [reflexivity|].
  intros k Hk IH. unfold Z.succ. rewrite bpow_succ, IH, Z.pow_add_r, mult_IZR by lia.
  change (IZR (2 ^ 1)) with 2. lra.
Qed.

Lemma bpow_le a b : (a <= b)%Z -> bpow a <= bpow b.
Proof.
  intros H. replace b with (a + (b - a))%Z by lia. rewrite bpow_add.
  rewrite (bpow_IZR (b - a)) by lia.
  assert (1 <= IZR (2 ^ (b - a))).
  { apply IZR_le. assert (0 < 2 ^ (b - a))%Z by (apply Z.pow_pos_nonneg; lia). lia. }
  pose proof (bpow_pos a). nra.
Qed.

Lemma bpow_lt a b : (a < b)%Z -> bpow a < bpow b.
Proof.
  intros H. replace b with (a + 1 + (b - a - 1))%Z by lia.
  pose proof (bpow_le (a + 1) (a + 1 + (b - a - 1)) ltac:(lia)).
  rewrite bpow_succ in H0 at 1. pose proof (bpow_pos a). lra.
Qed.

Lemma inbetween_bounds m e l v :
  inbetween m e l v -> F2R m e <= v < F2R m e + bpow e.
Proof.
  pose proof (bpow_pos e). destruct l as [|[]]; cbn; lra.
Qed.

Lemma IZR_xO p : IZR (Zpos p~0) = 2 * IZR (Zpos p).
Proof. now rewrite Pos2Z.inj_xO, mult_IZR. Qed.

Lemma IZR_xI p : IZR (Zpos p~1) = 2 * IZR (Zpos p) + 1.
Proof. now rewrite Pos2Z.inj_xI, plus_IZR, mult_IZR. Qed.

Lemma shr_1_inbetween mrs e v :
  (0 <= shr_m mrs)%Z ->
  inbetween (shr_m mrs) e (loc_of_shr_record mrs) v ->
  inbetween (shr_m (shr_1 mrs)) (e + 1) (loc_of_shr_record (shr_1 mrs)) v.
Proof.
  destruct mrs as [m r s]. cbn [shr_m]. intros Hm.
  pose proof (bpow_pos e) as Hb.
  unfold inbetween, F2R. rewrite bpow_succ. generalize dependent (bpow e). intros b Hb.
  destruct m as [|[p|p|]|p]; try lia; cbn [shr_1 shr_m];
    [ |rewrite (IZR_xI p); generalize (IZR (Zpos p)); intros x
      |rewrite (IZR_xO p); generalize (IZR (Zpos p)); intros x| ];
    destruct r, s; cbn [loc_of_shr_record orb]; intros H; lra.
Qed.

Lemma loc_of_shr_record_of_loc m l : loc_of_shr_record (shr_record_of_loc m l) = l.
Proof. now destruct l as [|[]]. Qed.

Lemma shr_m_shr_record_of_loc m l : shr_m (shr_record_of_loc m l) = m.
Proof. now destruct l as [|[]]. Qed.

Lemma shr_1_nonneg mrs : (0 <= shr_m mrs)%Z -> (0 <= shr_m (shr_1 mrs))%Z.
Proof. destruct mrs as [m r s]. cbn. destruct m as [|[p|p|]|p]; cbn; lia. Qed.

Lemma shr_1_locates v e mrs : locates v e mrs -> locates v (e + 1) (shr_1 mrs).
Proof. intros [H1 H2]. split; [now apply shr_1_nonneg|now apply shr_1_inbetween]. Qed.

Lemma iter_shr_1_locates v p : forall e mrs,
  locates v e mrs -> locates v (e + Zpos p) (SpecFloat.iter_pos shr_1 p mrs).
Proof.
  induction p as [p IH|p IH|]; intros e mrs H; cbn [SpecFloat.iter_pos].
  - replace (e + Zpos p~1)%Z with (e + 1 + Zpos p + Zpos p)%Z by lia.
    now apply IH, IH, shr_1_locates.
  - replace (e + Zpos p~0)%Z with (e + Zpos p + Zpos p)%Z by lia.
    now apply IH, IH.
  - now apply shr_1_locates.
Qed.

Lemma shr_locates v mrs e n :
  locates v e mrs ->
  locates v (Z.max e (e + n)) (fst (shr mrs e n)) /\ snd (shr mrs e n) = Z.max e (e + n).
Proof.
  intros H. destruct n as [|p|p]; cbn [shr fst snd].
  - now rewrite Z.add_0_r, Z.max_id.
  - rewrite Z.max_r by lia. split; [now apply iter_shr_1_locates|reflexivity].
  - now rewrite Z.max_l by lia.
Qed.

Lemma shr_fexp_locates v m e l :
  (0 <= m)%Z -> inbetween m e l v ->
  locates v (Z.max e (fexp prec emax (Zdigits2 m + e))) (fst (shr_fexp prec emax m e l)) /\
  snd (shr_fexp prec emax m e l) = Z.max e (fexp prec emax (Zdigits2 m + e)).
Proof.
  intros Hm Hv. unfold shr_fexp.
  set (n := (fexp prec emax (Zdigits2 m + e) - e)%Z).
  replace (fexp prec emax (Zdigits2 m + e)) with (e + n)%Z by (unfold n; lia).
  apply shr_locates. split; [now rewrite shr_m_shr_record_of_loc|].
  now rewrite shr_m_shr_record_of_loc, loc_of_shr_record_of_loc.
Qed.

Lemma digits2_pos_bounds p :
  (2 ^ (Zpos (digits2_pos p) - 1) <= Zpos p < 2 ^ Zpos (digits2_pos p))%Z.
Proof.
  induction p as [p IH|p IH|]; cbn [digits2_pos]; [| |cbn; lia].
  all: rewrite Pos2Z.inj_succ; unfold Z.succ.
  all: replace (Zpos (digits2_pos p) + 1 - 1)%Z with (Zpos (digits2_pos p) - 1 + 1)%Z by lia.
  all: rewrite !Z.pow_add_r by lia; change (2 ^ 1)%Z with 2%Z; lia.
Qed.

Lemma Zdigits2_le m k : (0 <= m < 2 ^ k)%Z -> (0 <= k)%Z -> (Zdigits2 m <= k)%Z.
Proof.
  intros [H0 Hk] Hk0. destruct m as [|p|p]; cbn; [lia| |lia].
  pose proof (digits2_pos_bounds p) as [Hd _].
  apply Z.nlt_ge. intros Hlt.
  assert (2 ^ k <= 2 ^ (Zpos (digits2_pos p) - 1))%Z by (apply Z.pow_le_mono_r; lia). lia.
Qed.

Lemma Zdigits2_ge m k : (2 ^ k <= m)%Z -> (0 <= k)%Z -> (k < Zdigits2 m)%Z.
Proof.
  intros Hk Hk0. assert (0 < 2 ^ k)%Z by (apply Z.pow_pos_nonneg; lia).
  destruct m as [|p|p]; cbn; try lia.
  pose proof (digits2_pos_bounds p) as [_ Hd].
  apply Z.nle_gt. intros Hle.
  assert (2 ^ Zpos (digits2_pos p) <= 2 ^ k)%Z by (apply Z.pow_le_mono_r; lia). lia.
Qed.

Lemma F2R_le_reg k m e : F2R k e <= F2R m e -> (k <= m)%Z.
Proof.
  unfold F2R. intros H. apply le_IZR. pose proof (bpow_pos e). nra.
Qed.

Lemma F2R_lt_reg k m e : F2R k e < F2R m e -> (k < m)%Z.
Proof.
  unfold F2R. intros H. apply lt_IZR. pose proof (bpow_pos e). nra.
Qed.

Lemma F2R_succ m e : F2R (m + 1) e = F2R m e + bpow e.
Proof. unfold F2R. rewrite plus_IZR. lra. Qed.

Lemma round_nearest_even_cases m l :
  round_nearest_even m l = m \/ round_nearest_even m l = (m + 1)%Z.
Proof. destruct l as [|[]]; cbn; auto. destruct (Z.even m); auto. Qed.

Lemma round_nearest_even_nearest m e l v :
  inbetween m e l v -> nearest v e (round_nearest_even m l).
Proof.
  intros Hv. pose proof (bpow_pos e) as Hb. pose proof (F2R_succ m e) as Hs.
  pose proof (inbetween_bounds _ _ _ _ Hv) as Hbd.
  repeat split.
  - destruct l as [|[]]; cbn [round_nearest_even inbetween] in *;
      try destruct (Z.even m); rewrite ?Hs; apply Rabs_le; lra.
  - intros k Hk. assert (k < m + 1)%Z by (apply (F2R_lt_reg _ _ e); lra).
    destruct (round_nearest_even_cases m l) as [-> | ->]; lia.
  - intros k Hk. destruct l as [|[]]; cbn [round_nearest_even inbetween] in *.
    + apply (F2R_le_reg _ _ e). lra.
    + assert (m < k)%Z by (apply (F2R_lt_reg _ _ e); lra). destruct (Z.even m); lia.
    + assert (m < k)%Z by (apply (F2R_lt_reg _ _ e); lra). lia.
    + assert (m < k)%Z by (apply (F2R_lt_reg _ _ e); lra). lia.
Qed.

Lemma fexp_ge_emin e : (-1074 <= fexp prec emax e)%Z.
Proof. unfold fexp, emin, prec, emax. lia. Qed.

Lemma fexp_eq e : fexp prec emax e = Z.max (e - 53) (-1074).
Proof. reflexivity. Qed.

Lemma bpow_53 e : bpow (e + 53) = bpow e * IZR (2 ^ 53).
Proof. rewrite bpow_add, (bpow_IZR 53) by lia. reflexivity. Qed.

Lemma shr_fexp_small m e :
  (0 <= m < 2 ^ 53)%Z -> (-1074 <= e)%Z ->
  shr_fexp prec emax m e loc_Exact = (Build_shr_record m false false, e).
Proof.
  intros Hm He. unfold shr_fexp.
  assert (Hd : (Zdigits2 m <= 53)%Z) by (apply Zdigits2_le; lia).
  assert (Hn : (fexp prec emax (Zdigits2 m + e) - e <= 0)%Z) by (rewrite fexp_eq; lia).
  cbn [shr_record_of_loc]. destruct (fexp prec emax (Zdigits2 m + e) - e)%Z; try lia; reflexivity.
Qed.

Lemma shr_fexp_carry e :
  (-1074 <= e)%Z ->
  shr_fexp prec emax (2 ^ 53) e loc_Exact = (Build_shr_record (2 ^ 52) false false, (e + 1)%Z).
Proof.
  intros He. unfold shr_fexp.
  change (Zdigits2 (2 ^ 53)) with 54%Z.
  replace (fexp prec emax (54 + e) - e)%Z with 1%Z by (rewrite fexp_eq; lia).
  reflexivity.
Qed.

Lemma pack_spec sx m1 e :
  (0 <= m1 <= 2 ^ 53)%Z -> (-1074 <= e)%Z ->
  (let '(mrs, e'') := shr_fexp prec emax m1 e loc_Exact in
   match shr_m mrs with
   | Z0 => S754_zero sx
   | Zpos m => if (e'' <=? emax - prec)%Z then S754_finite sx m e'' else S754_infinity sx
   | Zneg _ => S754_nan
   end) = pack sx m1 e.
Proof.
  intros Hm He. unfold pack.
  destruct (Z.eq_dec m1 (2 ^ 53)%Z) as [->|Hne].
  - rewrite shr_fexp_carry by exact He. reflexivity.
  - rewrite shr_fexp_small by lia. cbn [shr_m].
    destruct m1 as [|q|q]; [reflexivity| |lia].
    replace (Zpos q <? 2 ^ 53)%Z with true by (symmetry; apply Z.ltb_lt; lia).
    reflexivity.
Qed.

Lemma digits_binade p ex lx v :
  inbetween (Zpos p) ex lx v ->
  bpow (Zpos (digits2_pos p) - 1 + ex) <= v < bpow (Zpos (digits2_pos p) + ex).
Proof.
  intros Hv. pose proof (digits2_pos_bounds p) as [Hd1 Hd2].
  pose proof (inbetween_bounds _ _ _ _ Hv) as [Hlo Hup].
  rewrite <- F2R_succ in Hup. pose proof (bpow_pos ex) as Hb.
  rewrite !bpow_add, (bpow_IZR (Zpos _)), (bpow_IZR (Zpos _ - 1)) by lia.
  unfold F2R in *. split.
  - apply Rle_trans with (2 := Hlo). apply Rmult_le_compat_r; [lra|]. now apply IZR_le.
  - apply Rlt_le_trans with (1 := Hup). apply Rmult_le_compat_r; [lra|]. apply IZR_le. lia.
Qed.

Lemma binary_round_aux_spec sx mx ex lx v :
  (0 < mx)%Z -> inbetween mx ex lx v ->
  (ex <= fexp prec emax (Zdigits2 mx + ex))%Z ->
  exists m1 e', (0 <= m1 <= 2 ^ 53)%Z /\ binade v e' /\ nearest v e' m1 /\
    binary_round_aux prec emax sx mx ex lx = pack sx m1 e'.
Proof.
  intros Hmx Hv He. set (e' := fexp prec emax (Zdigits2 mx + ex)) in *.
  assert (He' : (-1074 <= e')%Z) by apply fexp_ge_emin.
  assert (Hbin : binade v e').
  { destruct mx as [|p|p]; try lia. cbn [Zdigits2] in *.
    pose proof (digits_binade p ex lx v Hv) as [Hlo Hup].
    split; [exact He'|]. split.
    - apply Rlt_le_trans with (1 := Hup). apply bpow_le. unfold e'. rewrite fexp_eq. lia.
    - destruct (Z.eq_dec e' (-1074)%Z) as [E|E]; [now left|right].
      apply Rle_trans with (2 := Hlo). apply bpow_le.
      unfold e' in *. rewrite fexp_eq in *. lia. }
  unfold binary_round_aux.
  destruct (shr_fexp_locates v mx ex lx ltac:(lia) Hv) as [[Hm' Hloc] He1].
  fold e' in Hloc, He1. rewrite Z.max_r in Hloc, He1 by exact He.
  destruct (shr_fexp prec emax mx ex lx) as [mrs' e1]. cbn [fst snd] in *. subst e1.
  set (m' := shr_m mrs') in *.
  assert (Hlt : (m' < 2 ^ 53)%Z).
  { destruct Hbin as (_ & Hup & _).
    pose proof (inbetween_bounds _ _ _ _ Hloc) as [Hlo _].
    rewrite bpow_53 in Hup. apply lt_IZR. unfold F2R in Hlo.
    pose proof (bpow_pos e'). nra. }
  pose proof (round_nearest_even_nearest _ _ _ _ Hloc) as Hnear.
  set (m1 := round_nearest_even m' (loc_of_shr_record mrs')) in *.
  assert (Hm1 : (0 <= m1 <= 2 ^ 53)%Z).
  { destruct (round_nearest_even_cases m' (loc_of_shr_record mrs')) as [E|E];
      fold m1 in E; lia. }
  exists m1, e'. split; [exact Hm1|]. split; [exact Hbin|]. split; [exact Hnear|].
  apply pack_spec; assumption.
Qed.

Lemma bpow_lt_reg a b : bpow a < bpow b -> (a < b)%Z.
Proof.
  intros H. apply Z.nle_gt. intros Hle. pose proof (bpow_le _ _ Hle). lra.
Qed.

Lemma F2R_change_exp K j e : (e <= j)%Z -> F2R K j = F2R (K * 2 ^ (j - e)) e.
Proof.
  intros H. unfold F2R. rewrite mult_IZR, <- bpow_IZR by lia.
  replace j with ((j - e) + e)%Z at 1 by lia. rewrite bpow_add. lra.
Qed.

Lemma nearest_le v e m1 K j :
  nearest v e m1 -> (e <= j)%Z -> v <= F2R K j -> F2R m1 e <= F2R K j.
Proof.
  intros (_ & _ & Hup) Hj Hv. rewrite (F2R_change_exp K j e Hj) in *.
  specialize (Hup _ Hv). unfold F2R. apply Rmult_le_compat_r; [left; apply bpow_pos|].
  now apply IZR_le.
Qed.

Lemma nearest_ge v e m1 K j :
  nearest v e m1 -> (e <= j)%Z -> F2R K j <= v -> F2R K j <= F2R m1 e.
Proof.
  intros (_ & Hlo & _) Hj Hv. rewrite (F2R_change_exp K j e Hj) in *.
  specialize (Hlo _ Hv). unfold F2R. apply Rmult_le_compat_r; [left; apply bpow_pos|].
  now apply IZR_le.
Qed.

Lemma binade_below v e j : binade v e -> v < bpow j -> (-1021 <= j)%Z -> (e <= j - 53)%Z.
Proof.
  intros (He & _ & [->|Hlo]) Hj Hj'; [lia|].
  assert (e + 52 < j)%Z by (apply bpow_lt_reg; lra). lia.
Qed.

Lemma pack_zero s e : pack s 0 e = S754_zero s.
Proof. reflexivity. Qed.

Lemma pack_finite s m1 e :
  (0 < m1 <= 2 ^ 53)%Z -> (e + 1 <= emax - prec)%Z ->
  exists m e2, pack s m1 e = S754_finite s m e2 /\ F2R (Zpos m) e2 = F2R m1 e /\
    (e <= e2 <= e + 1)%Z.
Proof.
  intros Hm He. unfold pack.
  replace (m1 =? 0)%Z with false by (symmetry; apply Z.eqb_neq; lia).
  destruct (Z.ltb_spec m1 (2 ^ 53)) as [Hlt|Hge].
  - replace (e <=? emax - prec)%Z with true by (symmetry; apply Z.leb_le; lia).
    exists (Z.to_pos m1), e. split; [reflexivity|]. rewrite Z2Pos.id by lia. split; [reflexivity|lia].
  - replace (e + 1 <=? emax - prec)%Z with true by (symmetry; apply Z.leb_le; lia).
    exists (Z.to_pos (2 ^ 52)), (e + 1)%Z. split; [reflexivity|].
    assert (m1 = 2 ^ 53)%Z as -> by lia. split; [|lia].
    rewrite (F2R_change_exp _ (e + 1) e) by lia.
    replace (e + 1 - e)%Z with 1%Z by lia. reflexivity.
Qed.

Lemma F2R_bpow k e : (0 <= k)%Z -> F2R (2 ^ k) e = bpow (e + k).
Proof. intros Hk. unfold F2R. rewrite <- bpow_IZR, bpow_add by lia. lra. Qed.

Lemma Zdigits2_53 m : (2 ^ 52 <= m < 2 ^ 53)%Z -> Zdigits2 m = 53%Z.
Proof.
  intros Hm. pose proof (Zdigits2_ge m 52 ltac:(lia) ltac:(lia)).
  pose proof (Zdigits2_le m 53 ltac:(lia) ltac:(lia)). lia.
Qed.

(** What [pack] returns is a float of the format. *)
Lemma pack_valid s m1 e v :
  (0 <= m1 <= 2 ^ 53)%Z -> binade v e -> nearest v e m1 ->
  valid_binary (pack s m1 e) = true.
Proof.
  intros Hm (He & Hup & Hlo) Hn. unfold pack.
  destruct (Z.eqb_spec m1 0) as [->|Hne]; [reflexivity|].
  destruct (Z.ltb_spec m1 (2 ^ 53)) as [Hlt|Hge].
  - destruct (Z.leb_spec e (emax - prec)) as [Hle|Hgt]; [|reflexivity].
    cbn [SpecFloat.valid_binary]. unfold bounded, canonical_mantissa.
    apply andb_true_intro. split; [|now apply Z.leb_le].
    apply Z.eqb_eq.
    replace (Zpos (digits2_pos (Z.to_pos m1))) with (Zdigits2 m1)
      by (destruct m1; try lia; reflexivity).
    rewrite fexp_eq.
    destruct Hlo as [->|Hlo].
    + pose proof (Zdigits2_le m1 53 ltac:(lia) ltac:(lia)). lia.
    + rewrite <- F2R_bpow in Hlo by lia.
      pose proof (nearest_ge v e m1 (2 ^ 52) e Hn ltac:(lia) Hlo) as H52.
      apply F2R_le_reg in H52. rewrite Zdigits2_53 by lia. lia.
  - destruct (Z.leb_spec (e + 1) (emax - prec)) as [Hle|Hgt]; [|reflexivity].
    cbn [SpecFloat.valid_binary]. unfold bounded, canonical_mantissa.
    apply andb_true_intro. split; [|now apply Z.leb_le].
    apply Z.eqb_eq. change (Zpos (digits2_pos (Z.to_pos (2 ^ 52)))) with 53%Z.
    rewrite fexp_eq. lia.
Qed.

(** *** Multiplying and dividing by one hundred *)

Lemma Prim2SF_100 : Prim2SF 100 = hundred.
Proof. reflexivity. Qed.

Lemma F2R_hundred : F2R 7036874417766400 (-46) = 100.
Proof.
  unfold F2R. change 7036874417766400%Z with (100 * 2 ^ 46)%Z.
  rewrite mult_IZR, <- (bpow_IZR 46) by lia.
  assert (bpow 46 * bpow (-46) = 1) by (rewrite <- bpow_add; reflexivity). nra.
Qed.

Lemma SFmul_hundred s m e :
  exists m1 e', (0 <= m1 <= 2 ^ 53)%Z /\
    binade (F2R (Zpos m) e * 100) e' /\ nearest (F2R (Zpos m) e * 100) e' m1 /\
    SF64mul (S754_finite s m e) hundred = pack s m1 e'.
Proof.
  unfold SF64mul, hundred. cbn [SFmul]. rewrite xorb_false_r.
  apply binary_round_aux_spec; [lia| |].
  - cbn [inbetween]. rewrite <- F2R_hundred. unfold F2R.
    rewrite Pos2Z.inj_mul, mult_IZR, bpow_add. lra.
  - assert (52 < Zdigits2 (Zpos (m * 7036874417766400)))%Z by (apply Zdigits2_ge; lia).
    rewrite fexp_eq. lia.
Qed.

Lemma SFdiv_hundred s m e :
  (2 ^ 52 <= Zpos m < 2 ^ 53)%Z -> (-1000 <= e <= 900)%Z ->
  exists m1 e', (0 <= m1 <= 2 ^ 53)%Z /\
    binade (F2R (Zpos m) e / 100) e' /\ nearest (F2R (Zpos m) e / 100) e' m1 /\
    SF64div (S754_finite s m e) hundred = pack s m1 e'.
Proof.
  intros Hm He. unfold SF64div, hundred. cbn [SFdiv]. rewrite xorb_false_r.
  unfold SFdiv_core_binary. rewrite (Zdigits2_53 (Zpos m) Hm).
  change (Zdigits2 7036874417766400) with 53%Z.
  replace (Z.min (fexp prec emax (53 + e - (53 + -46))) (e - -46)) with (e - 7)%Z
    by (rewrite fexp_eq; lia).
  replace (e - -46 - (e - 7))%Z with 53%Z by lia.
  rewrite Z.shiftl_mul_pow2 by lia.
  pose proof (Z_div_mod (Zpos m * 2 ^ 53) 7036874417766400 ltac:(lia)) as Hdiv.
  destruct (Z.div_eucl (Zpos m * 2 ^ 53) 7036874417766400) as [q r].
  destruct Hdiv as [Hqr Hr].
  assert (Hq : (2 ^ 52 <= q)%Z) by nia.
  assert (Hv : F2R (Zpos m) e / 100 =
               (IZR q + IZR r / IZR 7036874417766400) * bpow (e - 7)).
  { unfold F2R. replace e with ((e - 7) + 7)%Z at 1 by lia. rewrite bpow_add.
    assert (E : IZR (Zpos m) * IZR (2 ^ 53) = IZR 7036874417766400 * IZR q + IZR r)
      by (rewrite <- !mult_IZR, <- plus_IZR; now f_equal).
    rewrite (bpow_IZR 7) by lia. change (IZR (2 ^ 7)) with 128.
    change (IZR (2 ^ 53)) with 9007199254740992 in E.
    unfold Rdiv.
    assert (Hx : 7036874417766400 * / 7036874417766400 = 1) by (apply Rinv_r; lra).
    generalize dependent (/ 7036874417766400). intros x Hx.
    replace (IZR q + IZR r * x) with (x * (7036874417766400 * IZR q + IZR r)) by nra.
    rewrite <- E. nra. }
  apply binary_round_aux_spec; [lia| |].
  - rewrite Hv. pose proof (bpow_pos (e - 7)) as Hb.
    unfold new_location. change (Z.even 7036874417766400) with true. cbv iota.
    unfold new_location_even, Rdiv.
    assert (Hx : 7036874417766400 * / 7036874417766400 = 1) by (apply Rinv_r; lra).
    assert (Hx0 : 0 < / 7036874417766400) by (apply Rinv_0_lt_compat; lra).
    generalize dependent (/ 7036874417766400). intros x Hx Hx0.
    assert (Hr1 : 0 <= IZR r < 7036874417766400) by (split; [apply IZR_le|apply IZR_lt]; lia).
    destruct (Z.eqb_spec r 0) as [->|Hr0].
    + cbn [inbetween]. unfold F2R. lra.
    + assert (Hr2 : 0 < IZR r) by (apply IZR_lt; lia).
      destruct (Z.compare_spec (2 * r) 7036874417766400) as [E|E|E];
        cbn [inbetween]; unfold F2R, Rdiv.
      * apply (f_equal IZR) in E. rewrite mult_IZR in E.
        assert (IZR r * x = / 2) by nra. nra.
      * apply IZR_lt in E. rewrite mult_IZR in E.
        assert (0 < IZR r * x < / 2) by nra. nra.
      * apply IZR_lt in E. rewrite mult_IZR in E.
        assert (/ 2 < IZR r * x < 1) by nra. nra.
  - assert (52 < Zdigits2 q)%Z by (apply Zdigits2_ge; lia). rewrite fexp_eq. lia.
Qed.

(** *** [math.Round] *)

Lemma half_up_eq m k :
  (0 <= m)%Z -> (0 < k)%Z ->
  (if Z.testbit m (k - 1) then Z.shiftr m k + 1 else Z.shiftr m k)%Z = half_up m k.
Proof.
  intros Hm Hk. unfold half_up.
  rewrite Z.shiftr_div_pow2 by lia.
  pose proof (Z.testbit_spec' m (k - 1) ltac:(lia)) as Hb.
  assert (Hk2 : (2 ^ k = 2 ^ (k - 1) * 2)%Z).
  { replace k with (k - 1 + 1)%Z at 1 by lia. rewrite Z.pow_add_r by lia. lia. }
  assert (Hh : (0 < 2 ^ (k - 1))%Z) by (apply Z.pow_pos_nonneg; lia).
  rewrite Hk2. set (h := (2 ^ (k - 1))%Z) in *.
  rewrite <- !Z.div_div by lia.
  replace (m + h)%Z with (m + 1 * h)%Z by lia. rewrite Z.div_add by lia.
  set (a := (m / h)%Z) in *.
  pose proof (Z.div_mod a 2 ltac:(lia)) as Ha.
  pose proof (Z.mod_pos_bound a 2 ltac:(lia)) as Hmod.
  destruct (Z.testbit m (k - 1)); cbn [Z.b2z] in Hb.
  - assert (a + 1 = (a / 2 + 1) * 2)%Z as -> by lia. rewrite Z.div_mul by lia. lia.
  - assert (a + 1 = 1 + (a / 2) * 2)%Z as -> by lia. rewrite Z.div_add by lia.
    change (1 / 2)%Z with 0%Z. lia.
Qed.

Lemma SFRound_finite s m k :
  float64.SFRound (S754_finite s m (Zneg k)) =
    binary_normalize prec emax (cond_Zopp s (half_up (Zpos m) (Zpos k))) 0 s.
Proof.
  unfold float64.SFRound. cbv zeta. rewrite half_up_eq by lia. reflexivity.
Qed.

Lemma half_up_bounds m k :
  (0 <= m)%Z -> (0 < k)%Z ->
  IZR (half_up m k) - / 2 <= F2R m (- k) < IZR (half_up m k) + / 2.
Proof.
  intros Hm Hk. unfold half_up.
  assert (Hp : (0 < 2 ^ k)%Z) by (apply Z.pow_pos_nonneg; lia).
  pose proof (Z.div_mod (m + 2 ^ (k - 1)) (2 ^ k) ltac:(lia)) as Hd.
  pose proof (Z.mod_pos_bound (m + 2 ^ (k - 1)) (2 ^ k) Hp) as Hmod.
  set (N := ((m + 2 ^ (k - 1)) / 2 ^ k)%Z) in *.
  set (r := ((m + 2 ^ (k - 1)) mod 2 ^ k)%Z) in *.
  assert (Hk2 : (2 ^ k = 2 * 2 ^ (k - 1))%Z).
  { replace k with (k - 1 + 1)%Z at 1 by lia. rewrite Z.pow_add_r by lia. lia. }
  unfold F2R.
  assert (Hb : bpow (- k) * IZR (2 ^ k) = 1).
  { rewrite <- bpow_IZR, <- bpow_add by lia. replace (- k + k)%Z with 0%Z by lia. reflexivity. }
  pose proof (bpow_pos (- k)) as Hb0.
  assert (H1 : IZR m + IZR (2 ^ (k - 1)) = IZR (2 ^ k) * IZR N + IZR r)
    by (rewrite <- mult_IZR, <- !plus_IZR; now f_equal).
  assert (H2 : IZR (2 ^ k) = 2 * IZR (2 ^ (k - 1))) by (rewrite Hk2, mult_IZR; reflexivity).
  assert (H3 : 0 <= IZR r < IZR (2 ^ k)) by (split; [apply IZR_le|apply IZR_lt]; lia).
  assert (H4 : 0 < IZR (2 ^ (k - 1))) by (apply IZR_lt; lia).
  set (P := IZR (2 ^ k)) in *. set (h := IZR (2 ^ (k - 1))) in *.
  set (b := bpow (- k)) in *. clearbody P h b.
  assert (E : IZR m * b = IZR N * (b * P) + (IZR r - h) * b) by (rewrite Rmult_comm; nra).
  rewrite E, Hb. assert (h * b = / 2) by nra. split; nra.
Qed.

Lemma Pos_iter_xO m d : Zpos (Pos.iter xO m d) = (Zpos m * 2 ^ Zpos d)%Z.
Proof.
  induction d as [|d IH] using Pos.peano_ind.
  - cbn. lia.
  - rewrite Pos.iter_succ, Pos2Z.inj_xO, IH, Pos2Z.inj_succ, Z.pow_succ_r by lia. lia.
Qed.

Lemma shl_align_spec mx ex ex' :
  (ex' <= ex)%Z ->
  Zpos (fst (shl_align mx ex ex')) = (Zpos mx * 2 ^ (ex - ex'))%Z /\
  snd (shl_align mx ex ex') = ex'.
Proof.
  intros H. unfold shl_align. destruct (ex' - ex)%Z as [|d|d] eqn:E; try lia; cbn [fst snd].
  - replace (ex - ex')%Z with 0%Z by lia. split; lia.
  - rewrite Pos_iter_xO. replace (ex - ex')%Z with (Zpos d) by lia. auto.
Qed.

(** A packed mantissa that represents [v] exactly. *)
Lemma nearest_exact v e m1 K j :
  nearest v e m1 -> (e <= j)%Z -> v = F2R K j -> F2R m1 e = v.
Proof.
  intros Hn Hj ->. apply Rle_antisym.
  - apply (nearest_le _ _ _ _ _ Hn Hj). lra.
  - apply (nearest_ge _ _ _ _ _ Hn Hj). lra.
Qed.

Lemma F2R_int K : F2R K 0 = IZR K.
Proof. unfold F2R. rewrite bpow_0. lra. Qed.

(** The float of a positive integer below [2^53] is exact and normal. *)
Lemma binary_normalize_int s N :
  (0 < N < 2 ^ 53)%Z ->
  exists m e,
    binary_normalize prec emax (cond_Zopp s N) 0 s = S754_finite s m e /\
    F2R (Zpos m) e = IZR N /\ (2 ^ 52 <= Zpos m < 2 ^ 53)%Z /\ (-52 <= e <= 0)%Z /\
    valid_binary (S754_finite s m e) = true.
Proof.
  intros HN. destruct N as [|q|q]; try lia.
  assert (Hnorm : binary_normalize prec emax (cond_Zopp s (Zpos q)) 0 s = binary_round prec emax s q 0)
    by now destruct s.
  rewrite Hnorm. unfold binary_round.
  pose proof (digits2_pos_bounds q) as [Hd1 Hd2].
  assert (Hd : (Zpos (digits2_pos q) <= 53)%Z).
  { change (Zpos (digits2_pos q)) with (Zdigits2 (Zpos q)). apply Zdigits2_le; lia. }
  rewrite Z.add_0_r.
  replace (fexp prec emax (Zpos (digits2_pos q))) with (Zpos (digits2_pos q) - 53)%Z
    by (rewrite fexp_eq; lia).
  destruct (shl_align_spec q 0 (Zpos (digits2_pos q) - 53) ltac:(lia)) as [Hmz Hez].
  destruct (shl_align q 0 (Zpos (digits2_pos q) - 53)) as [mz ez]. cbn [fst snd] in *. subst ez.
  set (d := Zpos (digits2_pos q)) in *.
  assert (Hmz52 : (2 ^ 52 <= Zpos mz)%Z).
  { rewrite Hmz. replace 52%Z with ((d - 1) + (0 - (d - 53)))%Z by lia.
    rewrite Z.pow_add_r by lia. apply Z.mul_le_mono_nonneg_r; [|exact Hd1].
    apply Z.pow_nonneg. lia. }
  assert (Hexact : IZR (Zpos q) = F2R (Zpos mz) (d - 53)).
  { rewrite <- F2R_int, (F2R_change_exp _ 0 (d - 53)) by lia. now rewrite Hmz. }
  destruct (binary_round_aux_spec s (Zpos mz) (d - 53) loc_Exact (IZR (Zpos q)))
    as (m1 & e' & Hm1 & Hbin & Hn & ->); [lia|exact Hexact| |].
  { assert (52 < Zdigits2 (Zpos mz))%Z by (apply Zdigits2_ge; lia). rewrite fexp_eq. lia. }
  assert (Hv53 : IZR (Zpos q) < bpow 53) by (rewrite (bpow_IZR 53) by lia; apply IZR_lt; lia).
  assert (Hv1 : bpow 0 <= IZR (Zpos q)) by (rewrite bpow_0; apply IZR_le; lia).
  pose proof (binade_below _ _ 53 Hbin Hv53 ltac:(lia)) as He0.
  destruct Hbin as (Hemin & Hup & Hlo).
  assert (He52 : (0 < e' + 53)%Z) by (apply bpow_lt_reg; lra).
  assert (Hval : F2R m1 e' = IZR (Zpos q)).
  { apply (nearest_exact _ _ _ (Zpos q) 0 Hn); [lia|]. now rewrite F2R_int. }
  assert (Hlt : (m1 < 2 ^ 53)%Z).
  { apply (F2R_lt_reg _ _ e'). rewrite F2R_bpow, Hval by lia. exact Hup. }
  assert (Hge : (2 ^ 52 <= m1)%Z).
  { destruct Hlo as [->|Hlo]; [lia|].
    apply (F2R_le_reg _ _ e'). rewrite F2R_bpow, Hval by lia. exact Hlo. }
  exists (Z.to_pos m1), e'. rewrite Z2Pos.id by lia. repeat split; try lia; try exact Hval.
  - unfold pack. replace (m1 =? 0)%Z with false by (symmetry; apply Z.eqb_neq; lia).
    replace (m1 <? 2 ^ 53)%Z with true by (symmetry; apply Z.ltb_lt; lia).
    replace (e' <=? emax - prec)%Z with true by (symmetry; apply Z.leb_le; unfold emax, prec; lia).
    reflexivity.
  - cbn [SpecFloat.valid_binary]. unfold bounded, canonical_mantissa.
    apply andb_true_intro. split; [|apply Z.leb_le; unfold emax, prec; lia].
    apply Z.eqb_eq. change (Zpos (digits2_pos (Z.to_pos m1))) with (Zdigits2 (Zpos (Z.to_pos m1))).
    rewrite Z2Pos.id, Zdigits2_53, fexp_eq by lia. lia.
Qed.

(** *** [roundToTwoDecimals] on the IEEE decomposition *)

Lemma valid_mantissa s m e :
  valid_binary (S754_finite s m e) = true -> (Zpos m < 2 ^ 53)%Z /\ (-1074 <= e <= 971)%Z.
Proof.
  cbn [SpecFloat.valid_binary]. unfold bounded, canonical_mantissa.
  intros H. apply andb_prop in H as [H1 H2]. apply Z.eqb_eq in H1. apply Z.leb_le in H2.
  rewrite fexp_eq in H1. change (emax - prec)%Z with 971%Z in H2.
  pose proof (digits2_pos_bounds m) as [_ Hd].
  assert (Zpos (digits2_pos m) <= 53)%Z by lia.
  assert (2 ^ Zpos (digits2_pos m) <= 2 ^ 53)%Z by (apply Z.pow_le_mono_r; lia). lia.
Qed.

Lemma half_up_nonneg m k : (0 <= m)%Z -> (0 < k)%Z -> (0 <= half_up m k)%Z.
Proof.
  intros Hm Hk. unfold half_up. apply Z.div_pos.
  - assert (0 <= 2 ^ (k - 1))%Z by (apply Z.pow_nonneg; lia). lia.
  - apply Z.pow_pos_nonneg; lia.
Qed.

Lemma half_up_lt m k : (0 <= m < 2 ^ 53)%Z -> (0 < k)%Z -> (half_up m k < 2 ^ 53)%Z.
Proof.
  intros Hm Hk. unfold half_up.
  assert (Hk2 : (2 ^ k = 2 * 2 ^ (k - 1))%Z).
  { replace k with (k - 1 + 1)%Z at 1 by lia. rewrite Z.pow_add_r by lia. lia. }
  assert (Hh : (0 < 2 ^ (k - 1))%Z) by (apply Z.pow_pos_nonneg; lia).
  apply Z.div_lt_upper_bound; [lia|]. rewrite Hk2. nia.
Qed.

Lemma SFRound_valid x : valid_binary x = true -> valid_binary (float64.SFRound x) = true.
Proof.
  destruct x as [s|s| |s m [|k|k]]; try (intros H; exact H).
  intros Hv. rewrite SFRound_finite.
  destruct (valid_mantissa _ _ _ Hv) as [Hm _].
  pose proof (half_up_nonneg (Zpos m) (Zpos k) ltac:(lia) ltac:(lia)) as H0.
  pose proof (half_up_lt (Zpos m) (Zpos k) ltac:(lia) ltac:(lia)) as H1.
  destruct (Z.eq_dec (half_up (Zpos m) (Zpos k)) 0%Z) as [->|Hne]; [now destruct s|].
  destruct (binary_normalize_int s (half_up (Zpos m) (Zpos k)) ltac:(lia))
    as (m' & e' & -> & _ & _ & _ & Hval). exact Hval.
Qed.

Lemma Round_spec x : Prim2SF (float64.Round x) = float64.SFRound (Prim2SF x).
Proof.
  unfold float64.Round. apply Prim2SF_SF2Prim, SFRound_valid, Prim2SF_valid.
Qed.

Lemma F2R_quarter K : F2R K (-2) = IZR K / 4.
Proof. unfold F2R. change (bpow (-2)) with (/ (2 * (2 * 1))). lra. Qed.

Lemma cond_Zopp_0 s : cond_Zopp s 0 = 0%Z.
Proof. now destruct s. Qed.

(** A float whose hundredfold lies between two quarter-integers below
    [2^51]: the product is rounded within the same bounds, and [Round]
    returns the float of the integer nearest to it. *)
Lemma round_scaled s m e Klo Khi :
  (0 <= Klo)%Z -> (Khi < 2 ^ 53)%Z ->
  IZR Klo / 4 <= F2R (Zpos m) e * 100 <= IZR Khi / 4 ->
  exists N z,
    float64.SFRound (SF64mul (S754_finite s m e) hundred) =
      binary_normalize prec emax (cond_Zopp s N) 0 s /\
    (0 <= N)%Z /\ IZR Klo / 4 <= z <= IZR Khi / 4 /\ IZR N - / 2 <= z < IZR N + / 2.
Proof.
  intros Hlo Hhi Hv. rewrite <- !F2R_quarter in Hv.
  destruct (SFmul_hundred s m e) as (m1 & e1 & Hm1 & Hbin & Hn & ->).
  assert (Hv51 : F2R (Zpos m) e * 100 < bpow 51).
  { apply Rle_lt_trans with (1 := proj2 Hv). change 51%Z with (-2 + 53)%Z.
    rewrite <- F2R_bpow by lia. unfold F2R. apply Rmult_lt_compat_r; [apply bpow_pos|].
    now apply IZR_lt. }
  pose proof (binade_below _ _ 51 Hbin Hv51 ltac:(lia)) as He1.
  pose proof (nearest_le _ _ _ Khi (-2) Hn ltac:(lia) (proj2 Hv)) as Hz2.
  pose proof (nearest_ge _ _ _ Klo (-2) Hn ltac:(lia) (proj1 Hv)) as Hz1.
  rewrite !F2R_quarter in Hz1, Hz2.
  destruct (Z.eq_dec m1 0%Z) as [->|Hne].
  - exists 0%Z, 0. rewrite pack_zero, cond_Zopp_0. cbn [float64.SFRound binary_normalize].
    unfold F2R in Hz1, Hz2. rewrite Rmult_0_l in Hz1, Hz2.
    repeat split; try lia; try lra.
  - destruct (pack_finite s m1 e1 ltac:(lia) ltac:(unfold emax, prec; lia))
      as (ma & ea & -> & Hval & Hea).
    destruct ea as [|k|k]; try lia. rewrite SFRound_finite.
    exists (half_up (Zpos ma) (Zpos k)), (F2R m1 e1).
    split; [reflexivity|]. split; [apply half_up_nonneg; lia|]. split; [lra|].
    rewrite <- Hval. apply (half_up_bounds (Zpos ma) (Zpos k)); lia.
Qed.

Lemma Rabs_le_bounds x a : Rabs x <= a -> - a <= x <= a.
Proof. unfold Rabs. destruct (Rcase_abs x); lra. Qed.

(** Dividing the float of an integer [N <= 100·2^44] by one hundred gives a
    float whose hundredfold is within a quarter of [N]. *)
Lemma div_scaled s N :
  (0 < N <= 100 * 2 ^ 44)%Z ->
  exists my ey,
    SF64div (binary_normalize prec emax (cond_Zopp s N) 0 s) hundred = S754_finite s my ey /\
    IZR N - / 4 <= F2R (Zpos my) ey * 100 <= IZR N + / 4.
Proof.
  intros HN.
  destruct (binary_normalize_int s N ltac:(lia)) as (mr & er & -> & Hval & Hmr & Her & _).
  destruct (SFdiv_hundred s mr er Hmr ltac:(lia)) as (m2 & e2 & Hm2 & Hbin & Hn & ->).
  rewrite Hval in *.
  assert (HN1 : 1 <= IZR N) by (apply IZR_le; lia).
  assert (HN2 : IZR N <= 1759218604441600) by (apply IZR_le; lia).
  assert (Hv51 : IZR N / 100 < bpow 51).
  { rewrite (bpow_IZR 51) by lia. change (IZR (2 ^ 51)) with 2251799813685248. lra. }
  pose proof (binade_below _ _ 51 Hbin Hv51 ltac:(lia)) as He2.
  destruct Hbin as (Hemin & Hup & Hlo).
  assert (Hnorm : bpow e2 * 4503599627370496 <= IZR N / 100).
  { destruct Hlo as [->|Hlo].
    - exfalso. pose proof (bpow_le (-1074 + 53) (-7) ltac:(lia)) as H7.
      change (bpow (-7)) with (/ (2 * (2 * (2 * (2 * (2 * (2 * (2 * 1)))))))) in H7. lra.
    - rewrite bpow_add, (bpow_IZR 52) in Hlo by lia. exact Hlo. }
  destruct Hn as (Herr & _). apply Rabs_le_bounds in Herr.
  pose proof (bpow_pos e2) as Hb.
  set (y := F2R m2 e2) in *.
  assert (Hy : IZR N - / 4 <= y * 100 <= IZR N + / 4) by (split; nra).
  assert (Hm2' : (0 < m2)%Z).
  { apply (F2R_lt_reg _ _ e2). fold y. unfold F2R. rewrite Rmult_0_l. lra. }
  destruct (pack_finite s m2 e2 ltac:(lia) ltac:(unfold emax, prec; lia))
    as (my & ey & -> & Hmy & _).
  exists my, ey. split; [reflexivity|]. now rewrite Hmy.
Qed.

Lemma SFround2_zero s : SFround2 (S754_zero s) = S754_zero s.
Proof. now destruct s. Qed.

Lemma SFdiv_zero_hundred s : SF64div (S754_zero s) hundred = S754_zero s.
Proof. now destruct s. Qed.

Lemma SFround2_idempotent_finite s m e :
  F2R (Zpos m) e <= bpow 44 ->
  SFround2 (SFround2 (S754_finite s m e)) = SFround2 (S754_finite s m e).
Proof.
  intros Hx. pose proof (bpow_pos e) as Hb.
  assert (H0 : 0 < F2R (Zpos m) e) by (unfold F2R; apply Rmult_lt_0_compat; [apply IZR_lt; lia|lra]).
  rewrite (bpow_IZR 44) in Hx by lia. change (IZR (2 ^ 44)) with 17592186044416 in Hx.
  destruct (round_scaled s m e 0 (400 * 2 ^ 44) ltac:(lia) ltac:(lia)) as (N & z & HR & HN0 & Hz & HNz).
  { change (IZR (400 * 2 ^ 44)) with 7036874417766400. lra. }
  change (IZR (400 * 2 ^ 44)) with 7036874417766400 in Hz.
  unfold SFround2 at 2 3. rewrite HR.
  destruct (Z.eq_dec N 0%Z) as [->|Hne].
  - rewrite cond_Zopp_0. cbn [binary_normalize]. rewrite SFdiv_zero_hundred.
    apply SFround2_zero.
  - assert (HN : (N <= 100 * 2 ^ 44)%Z).
    { apply Z.lt_succ_r, lt_IZR. unfold Z.succ. rewrite plus_IZR.
      change (IZR (100 * 2 ^ 44)) with 1759218604441600. lra. }
    destruct (div_scaled s N ltac:(lia)) as (my & ey & HY & Hy).
    rewrite HY. unfold SFround2.
    destruct (round_scaled s my ey (4 * N - 1) (4 * N + 1) ltac:(lia) ltac:(lia))
      as (N' & z' & HR' & HN0' & Hz' & HNz').
    { rewrite minus_IZR, plus_IZR, mult_IZR. lra. }
    rewrite minus_IZR, plus_IZR, mult_IZR in Hz'.
    assert (N' = N) as ->.
    { assert (N' < N + 1)%Z by (apply lt_IZR; rewrite plus_IZR; lra).
      assert (N - 1 < N')%Z by (apply lt_IZR; rewrite minus_IZR; lra). lia. }
    rewrite HR'. exact HY.
Qed.

Lemma roundToTwoDecimals_spec x :
  Prim2SF (services.roundToTwoDecimals x) = SFround2 (Prim2SF x).
Proof.
  unfold services.roundToTwoDecimals, SFround2.
  now rewrite div_spec, Round_spec, mul_spec, Prim2SF_100.
Qed.

Lemma leb_two_44 s m e :
  valid_binary (S754_finite s m e) = true ->
  SFleb (SFabs (S754_finite s m e)) (Prim2SF 17592186044416) = true ->
  F2R (Zpos m) e <= bpow 44.
Proof.
  intros Hv. destruct (valid_mantissa _ _ _ Hv) as [Hm _].
  change (Prim2SF 17592186044416) with (S754_finite false 4503599627370496 (-8)).
  unfold SFleb. cbn [SFabs SFcompare].
  assert (E52 : F2R (2 ^ 52) (-8) = bpow 44) by (apply (F2R_bpow 52 (-8)); lia).
  assert (E53 : F2R (2 ^ 53) e = bpow (e + 53)) by (apply F2R_bpow; lia).
  destruct (Z.compare_spec e (-8)) as [->|He|He]; [| |discriminate].
  - rewrite Pos.compare_cont_spec. cbn [Pos.switch_Eq].
    destruct (Pos.compare_spec m 4503599627370496) as [->|Hlt|Hgt]; try discriminate; intros _.
    + apply Req_le. exact E52.
    + apply Rle_trans with (2 := Req_le _ _ E52). unfold F2R.
      apply Rmult_le_compat_r; [left; apply bpow_pos|]. apply IZR_le.
      apply Pos2Z.pos_lt_pos in Hlt. apply Z.lt_le_incl. exact Hlt.
  - intros _. apply Rle_trans with (bpow (e + 53)); [|apply bpow_le; lia].
    apply Rle_trans with (2 := Req_le _ _ E53). unfold F2R.
    apply Rmult_le_compat_r; [left; apply bpow_pos|]. apply IZR_le. lia.
Qed.

(** *** Signs *)

Lemma iter_pos_invariant {A} (P : A -> Prop) (f : A -> A) :
  (forall x, P x -> P (f x)) -> forall p x, P x -> P (SpecFloat.iter_pos f p x).
Proof.
  intros Hf. induction p as [p IH|p IH|]; intros x Hx; cbn; auto.
Qed.

Lemma shr_fexp_nonneg prec emax m e l :
  (0 <= m)%Z -> (0 <= shr_m (fst (shr_fexp prec emax m e l)))%Z.
Proof.
  intros Hm. unfold shr_fexp, shr.
  assert (H0 : (0 <= shr_m (shr_record_of_loc m l))%Z) by (destruct l as [|[]]; exact Hm).
  destruct (_ - e)%Z; cbn; auto.
  apply (iter_pos_invariant (fun mrs => (0 <= shr_m mrs)%Z)); auto using shr_1_nonneg.
Qed.

Lemma round_nearest_even_nonneg m l : (0 <= m)%Z -> (0 <= round_nearest_even m l)%Z.
Proof. intros Hm. destruct l as [|[]]; cbn; try lia. destruct (Z.even m); lia. Qed.

Lemma binary_round_aux_signed prec emax sx mx ex lx :
  (0 <= mx)%Z -> signed sx (binary_round_aux prec emax sx mx ex lx).
Proof.
  intros Hm. unfold binary_round_aux.
  pose proof (shr_fexp_nonneg prec emax mx ex lx Hm) as H1.
  destruct (shr_fexp prec emax mx ex lx) as [mrs' e']. cbn in H1.
  pose proof (shr_fexp_nonneg prec emax _ e' loc_Exact
                (round_nearest_even_nonneg _ (loc_of_shr_record mrs') H1)) as H2.
  destruct (shr_fexp prec emax _ e' loc_Exact) as [mrs'' e'']. cbn in H2.
  destruct (shr_m mrs''); [reflexivity| |lia].
  now destruct (_ <=? _)%Z.
Qed.

Lemma signed_false_nonneg x : signed false x -> SFleb (S754_zero false) x = true.
Proof. destruct x as [s|s| |s m e]; cbn; try tauto; now intros ->. Qed.

Lemma signed_abs_nonneg s x : signed s x -> SFleb (S754_zero false) (SFabs x) = true.
Proof. destruct x as [s'|s'| |s' m e]; cbn; tauto. Qed.

(** The product of a positive finite quantity and a non-negative price is
    non-negative. *)
Lemma mul_ge0 q p :
  finite q = true -> gt0 q = true -> ge0 p = true -> ge0 (q * p) = true.
Proof.
  unfold finite. rewrite gt0_SF, (ge0_SF p), (ge0_SF (q * p)), mul_spec.
  destruct (Prim2SF q) as [s1|s1| |s1 m1 e1], (Prim2SF p) as [s2|s2| |s2 m2 e2];
    cbn; try discriminate; try (destruct s1; discriminate); try (destruct s2; discriminate).
  - intros _ _ _. destruct s1, s2; (reflexivity || discriminate).
  - intros _ H1 H2. destruct s1, s2; try discriminate. reflexivity.
  - intros _ H1 H2. destruct s1, s2; try discriminate.
    apply signed_false_nonneg. now apply (binary_round_aux_signed _ _ false).
Qed.

(** The absolute value of the product of a finite non-zero quantity and a
    non-negative price is non-negative (it is not a NaN). *)
Lemma abs_mul_ge0 q p :
  finite q = true -> eq0 q = false -> ge0 p = true -> ge0 (abs (q * p)) = true.
Proof.
  unfold finite. rewrite eq0_SF, (ge0_SF p), (ge0_SF (abs _)), abs_spec, mul_spec.
  destruct (Prim2SF q) as [s1|s1| |s1 m1 e1], (Prim2SF p) as [s2|s2| |s2 m2 e2];
    cbn; try discriminate; try reflexivity.
  intros _ _ _. eapply signed_abs_nonneg, binary_round_aux_signed. lia.
Qed.

End ieee_facts.

(** ** The orchestrator *)

Section Orchestrator.

Import services.

Variable fmt_f : nat -> float -> string.
Variable fmt_d : Z -> string.
Variable json_Marshal_request : RewardRequest.t -> option string.
Variable json_Marshal_response : RewardResponse.t -> option string.
Variable json_Unmarshal_response : string -> option RewardResponse.t.
Variable rs : RewardService.

Abbreviation proc :=
  (process fmt_f fmt_d json_Marshal_request json_Marshal_response json_Unmarshal_response rs).
Abbreviation runs :=
  (run fmt_f fmt_d json_Marshal_request json_Marshal_response json_Unmarshal_response rs).
Abbreviation pend := (pending json_Marshal_request).
Abbreviation made := (created rs).
Abbreviation reach :=
  (reachable fmt_f fmt_d json_Marshal_request json_Marshal_response json_Unmarshal_response rs).

Ltac unfold_process :=
  unfold process, ProcessReward, settle, replay, createLedgerEntries,
    rewardRequestRepo.GetByEventID, rewardRequestRepo.Create, rewardRequestRepo.MarkProcessed,
    rewardRepo.Create, ledgerRepo.BulkCreate, bind, try, fail, ret, logf in *; cbn in *.

Lemma validateRequest_rejects req :
  RewardRequest.UserID req = "" \/ RewardRequest.StockSymbol req = "" \/
  RewardRequest.EventID req = "" \/ float64.eq0 (RewardRequest.Quantity req) = true ->
  exists msg, validateRequest req = Some msg.
Proof.
  unfold validateRequest. intros H.
  destruct (String.eqb_spec (RewardRequest.UserID req) ""); [eauto|].
  destruct (String.eqb_spec (RewardRequest.StockSymbol req) ""); [eauto|].
  destruct (float64.eq0 (RewardRequest.Quantity req)); [eauto|].
  destruct (String.eqb_spec (RewardRequest.EventID req) ""); [eauto|].
  destruct H as [?|[?|[?|?]]]; congruence.
Qed.


(** *** What one call does to the tables *)

Lemma process_other_event w req st eventID :
  eventID <> RewardRequest.EventID req ->
  reward_requests (snd (proc w req st)) !! eventID = reward_requests st !! eventID.
Proof.
  intros Hne. unfold_process.
  repeat (case_match; cbn in *; simplify_eq); cbn;
    rewrite ?lookup_alter_ne, ?lookup_insert_ne by congruence; reflexivity.
Qed.

Lemma process_existing_event w req st r :
  reward_requests st !! RewardRequest.EventID req = Some r ->
  same_tables st (snd (proc w req st)) /\
  (forall response, fst (proc w req st) = Ok response ->
     models.RewardRequest.Status r = "COMPLETED" /\
     exists payload r0, models.RewardRequest.ResponsePayload r = Some payload /\
       json_Unmarshal_response payload = Some r0 /\
       response = RewardResponse.set_Message "Duplicate request - returning previous result" r0).
Proof.
  intros Hl. unfold_process.
  repeat (case_match; cbn in *; simplify_eq);
    (split; [repeat split|intros response Hr; cbn in Hr; simplify_eq]).
  all: try match goal with H : String.eqb _ _ = true |- _ => apply String.eqb_eq in H end.
  all: eauto 10.
Qed.


Lemma ledgerEntries_nonempty reward :
  (length (ledgerEntries fmt_f reward) =? 0) = false.
Proof. unfold ledgerEntries. now destruct (float64.gt0 _). Qed.

Lemma process_gate_steps w req st :
  gate.steps (reward_requests st) (reward_requests (snd (proc w req st))).
Proof.
  unfold_process.
  repeat (case_match; cbn in *; simplify_eq); cbn; try apply gate.steps_refl.
  all: rewrite ?alter_insert_eq.
  all: lazymatch goal with
       | |- gate.steps ?m (<[?e := rewardRequestRepo.completed ?w0 ?p ?x]> ?m) =>
           apply gate.steps_cons with (m1 := <[e := x]> m);
           [apply gate.reserve; [assumption|reflexivity]|];
           apply gate.steps_cons with (m1 := <[e := rewardRequestRepo.completed w0 p x]> (<[e := x]> m));
           [apply gate.complete with (r := x); [apply lookup_insert_eq|reflexivity|reflexivity]|];
           rewrite insert_insert_eq; apply gate.steps_refl
       | |- gate.steps ?m (<[?e := ?x]> ?m) =>
           apply gate.steps_cons with (m1 := <[e := x]> m);
           [apply gate.reserve; [assumption|reflexivity]|apply gate.steps_refl]
       end.
Qed.

(** A call that returns an error has created no reward and no ledger entry,
    and has at most reserved its event identifier. *)
Lemma process_error w req st err :
  fst (proc w req st) = Err err ->
  rewards (snd (proc w req st)) = rewards st /\
  ledger_entries (snd (proc w req st)) = ledger_entries st /\
  (reward_requests (snd (proc w req st)) = reward_requests st \/
   (reward_requests st !! RewardRequest.EventID req = None /\
    reward_requests (snd (proc w req st)) =
      <[RewardRequest.EventID req := pend w st req]> (reward_requests st))).
Proof.
  unfold pending. unfold_process.
  repeat (case_match; cbn in *; simplify_eq); intros Hr; cbn in *; simplify_eq; eauto.
Qed.

(** A call that succeeds has either replayed a COMPLETED record and touched
    no table, or priced and inserted one reward under a fresh identifier. *)
Lemma process_success w req st response :
  fst (proc w req st) = Ok response ->
  (same_tables st (snd (proc w req st)) /\
   exists r payload r0,
     reward_requests st !! RewardRequest.EventID req = Some r /\
     models.RewardRequest.Status r = "COMPLETED" /\
     models.RewardRequest.ResponsePayload r = Some payload /\
     json_Unmarshal_response payload = Some r0 /\
     response = RewardResponse.set_Message "Duplicate request - returning previous result" r0) \/
  (exists price,
     reward_requests st !! RewardRequest.EventID req = None /\
     priceService_GetLatestPrice w (RewardRequest.StockSymbol req) = Ok price /\
     response = newResponse w (made w st req price) /\
     rewards (snd (proc w req st)) = rewards st ++ [made w st req price] /\
     (ledger_entries (snd (proc w req st)) =
        ledger_entries st ++ ledgerEntries fmt_f (made w st req price) \/
      ledger_entries (snd (proc w req st)) = ledger_entries st /\ fail_BulkCreate w <> None) /\
     (reward_requests (snd (proc w req st)) =
        <[RewardRequest.EventID req :=
            rewardRequestRepo.completed w (payload_string (json_Marshal_response response))
              (pend w st req)]> (reward_requests st) \/
      reward_requests (snd (proc w req st)) =
        <[RewardRequest.EventID req := pend w st req]> (reward_requests st) /\
      fail_MarkProcessed w <> None)).
Proof.
  unfold pending, created. unfold_process.
  repeat (case_match; cbn in *; simplify_eq); intros Hr; cbn in *; simplify_eq.
  all: try match goal with H : String.eqb _ _ = true |- _ => apply String.eqb_eq in H end.
  all: try (left; split; [repeat split|eauto 10]; fail).
  all: right; eexists; repeat split; try eassumption; try reflexivity.
  all: rewrite ?alter_insert_eq; eauto.
  all: try match goal with
           | H : (length (ledgerEntries _ _) =? 0) = true |- _ =>
               rewrite ledgerEntries_nonempty in H; discriminate
           end.
  all: right; split; [reflexivity|congruence].
Qed.


(** *** The idempotency gate *)

Lemma gate_step_moves m m' eventID :
  gate.step m m' -> gate.moves (gate.status m eventID) (gate.status m' eventID).
Proof.
  unfold gate.moves, gate.status.
  intros [e r Hfree Hs | e r r' Hl Hs Hs'];
    (destruct (decide (e = eventID)) as [->|Hne];
     [rewrite lookup_insert_eq | rewrite lookup_insert_ne by done; auto]).
  - rewrite Hfree. cbn. rewrite Hs. auto.
  - rewrite Hl. cbn. rewrite Hs, Hs'. auto.
Qed.

Lemma process_keeps_record w req st eventID r :
  reward_requests st !! eventID = Some r ->
  reward_requests (snd (proc w req st)) !! eventID = Some r.
Proof.
  intros Hl. destruct (decide (eventID = RewardRequest.EventID req)) as [->|Hne].
  - destruct (process_existing_event w req st r Hl) as [(-> & _) _]. exact Hl.
  - now rewrite process_other_event.
Qed.

Lemma process_blocked w req st r :
  reward_requests st !! RewardRequest.EventID req = Some r ->
  models.RewardRequest.Status r = "PROCESSING" ->
  exists err, fst (proc w req st) = Err err.
Proof.
  intros Hl Hs. destruct (process_existing_event w req st r Hl) as [_ Hok].
  destruct (fst (proc w req st)) as [response|err] eqn:E; [|eauto].
  destruct (Hok response eq_refl) as [Hc _]. congruence.
Qed.

Lemma run_cons w req calls st :
  runs ((w, req) :: calls) st =
    ((req, fst (proc w req st)) :: fst (runs calls (snd (proc w req st))),
     snd (runs calls (snd (proc w req st)))).
Proof.
  cbn [run]. destruct (proc w req st) as [res st1]. cbn [fst snd].
  now destruct (runs calls st1).
Qed.

Lemma run_keeps_record calls st eventID r :
  reward_requests st !! eventID = Some r ->
  reward_requests (snd (runs calls st)) !! eventID = Some r.
Proof.
  revert st. induction calls as [|[w req] calls IH]; intros st Hl; [exact Hl|].
  rewrite run_cons. cbn [snd]. apply IH. now apply process_keeps_record.
Qed.

Lemma run_blocked calls st eventID r :
  reward_requests st !! eventID = Some r ->
  models.RewardRequest.Status r = "PROCESSING" ->
  Forall (fun o => RewardRequest.EventID (fst o) = eventID -> exists err, snd o = Err err)
         (fst (runs calls st)).
Proof.
  revert st. induction calls as [|[w req] calls IH]; intros st Hl Hs; [constructor|].
  rewrite run_cons. cbn [fst]. constructor.
  - cbn [fst snd]. intros <-. now apply process_blocked with (r := r).
  - apply IH; [|exact Hs]. now apply process_keeps_record.
Qed.


Lemma gate_steps_trans m1 m2 m3 : gate.steps m1 m2 -> gate.steps m2 m3 -> gate.steps m1 m3.
Proof. induction 1; [auto|]. intros. eapply gate.steps_cons; eauto. Qed.

Lemma run_gate_steps calls st :
  gate.steps (reward_requests st) (reward_requests (snd (runs calls st))).
Proof.
  revert st. induction calls as [|[w req] calls IH]; intros st; [apply gate.steps_refl|].
  rewrite run_cons. cbn [snd]. eapply gate_steps_trans; [apply process_gate_steps|apply IH].
Qed.

Lemma gate_steps_two_statuses m m' : gate.steps m m' -> gate.two_statuses m -> gate.two_statuses m'.
Proof.
  induction 1 as [|m m1 m2 Hstep _ IH]; [auto|]. intros Hm. apply IH.
  intros e r. destruct Hstep as [e0 r0 _ Hs | e0 r0 r0' _ _ Hs];
    (destruct (decide (e0 = e)) as [->|Hne];
     [rewrite lookup_insert_eq; intros [= <-]; auto
     |rewrite lookup_insert_ne by done; apply Hm]).
Qed.

Lemma reachable_two_statuses st : reach st -> gate.two_statuses (reward_requests st).
Proof.
  intros [calls <-]. eapply gate_steps_two_statuses; [apply run_gate_steps|].
  intros e r. cbn. now rewrite lookup_empty.
Qed.

(** *** Rewards are priced *)

Lemma newReward_priced w req price id :
  priced rs (rewardRepo.row w id (newReward rs w req price)).
Proof.
  unfold priced, rewardRepo.row, newReward. cbn. repeat split.
  - intros Hq. now rewrite (float64_facts.gt0_not_lt0 _ Hq).
  - intros Hq. now rewrite Hq.
Qed.

Lemma process_rewards w req st :
  rewards (snd (proc w req st)) = rewards st \/
  exists price, rewards (snd (proc w req st)) = rewards st ++ [made w st req price].
Proof.
  destruct (fst (proc w req st)) as [response|err] eqn:E.
  - destruct (process_success w req st response E) as [[(_ & _ & -> & _) _]|(price & _ & _ & _ & -> & _)];
      eauto.
  - destruct (process_error w req st err E) as (-> & _). auto.
Qed.

Lemma run_rewards_priced calls st :
  Forall (priced rs) (rewards st) -> Forall (priced rs) (rewards (snd (runs calls st))).
Proof.
  revert st. induction calls as [|[w req] calls IH]; intros st Hst; [exact Hst|].
  rewrite run_cons. cbn [snd]. apply IH.
  destruct (process_rewards w req st) as [->|[price ->]]; [exact Hst|].
  apply Forall_app. split; [exact Hst|]. constructor; [apply newReward_priced|constructor].
Qed.

End Orchestrator.

(** * The claims *)

Section Claims.

Import services.

Variable fmt_f : nat -> float -> string.
Variable fmt_d : Z -> string.
Variable json_Marshal_request : RewardRequest.t -> option string.
Variable json_Marshal_response : RewardResponse.t -> option string.
Variable json_Unmarshal_response : string -> option RewardResponse.t.
Variable rs : RewardService.

Abbreviation proc :=
  (process fmt_f fmt_d json_Marshal_request json_Marshal_response json_Unmarshal_response rs).
Abbreviation runs :=
  (run fmt_f fmt_d json_Marshal_request json_Marshal_response json_Unmarshal_response rs).
Abbreviation reach :=
  (reachable fmt_f fmt_d json_Marshal_request json_Marshal_response json_Unmarshal_response rs).

(** C1. Double-entry balance: for every reward (of positive, negative or any
    other quantity, whatever its fees), the amounts of the DEBIT entries that
    [createLedgerEntries] builds and the amounts of its CREDIT entries are the
    same list, so their sums are equal. *)
Theorem ledger_entries_balance (reward : models.Reward.t) :
  ledger.amounts "DEBIT" (ledgerEntries fmt_f reward) =
    ledger.amounts "CREDIT" (ledgerEntries fmt_f reward) /\
  ledger.total "DEBIT" (ledgerEntries fmt_f reward) =
    ledger.total "CREDIT" (ledgerEntries fmt_f reward).
Proof.
  assert (H : ledger.amounts "DEBIT" (ledgerEntries fmt_f reward) =
              ledger.amounts "CREDIT" (ledgerEntries fmt_f reward)).
  { unfold ledgerEntries, ledger.amounts.
    destruct (float64.gt0 (models.Reward.Quantity reward)); [|reflexivity].
    destruct (float64.gt0 (models.Reward.BrokerageFee reward));
      destruct (float64.gt0 (models.Reward.TransactionFee reward)); reflexivity. }
  split; [exact H|]. unfold ledger.total. now rewrite H.
Qed.

(** C2, as amended. A request that passes validation, in a world where the
    lookup of its event identifier succeeds and finds a COMPLETED record whose
    cached payload decodes to [response], is answered with [response] itself,
    only its message replaced by the duplicate notice; no table changes. *)
Theorem replay_of_completed w req st r payload response :
  validateRequest req = None ->
  fail_GetByEventID w = None ->
  reward_requests st !! RewardRequest.EventID req = Some r ->
  models.RewardRequest.Status r = "COMPLETED" ->
  models.RewardRequest.ResponsePayload r = Some payload ->
  json_Unmarshal_response payload = Some response ->
  fst (proc w req st) =
    Ok (RewardResponse.set_Message "Duplicate request - returning previous result" response) /\
  same_tables st (snd (proc w req st)).
Proof.
  intros Hv Hf Hl Hs Hp Hu.
  unfold process, ProcessReward, replay, rewardRequestRepo.GetByEventID,
    bind, try, fail, ret, logf. cbn.
  rewrite Hv, Hf. cbn. rewrite Hl. cbn. rewrite Hs, Hp, Hu. cbn.
  split; [reflexivity|]. repeat split.
Qed.

(** The replay hands back every field of the cached response but its
    message. *)
Lemma set_Message_keeps_fields m (r : RewardResponse.t) :
  let r' := RewardResponse.set_Message m r in
  RewardResponse.RewardID r' = RewardResponse.RewardID r /\
  RewardResponse.Quantity r' = RewardResponse.Quantity r /\
  RewardResponse.StockPrice r' = RewardResponse.StockPrice r /\
  RewardResponse.TotalValueINR r' = RewardResponse.TotalValueINR r /\
  RewardResponse.BrokerageFee r' = RewardResponse.BrokerageFee r /\
  RewardResponse.TransactionFee r' = RewardResponse.TransactionFee r /\
  RewardResponse.NetValueINR r' = RewardResponse.NetValueINR r /\
  RewardResponse.Timestamp r' = RewardResponse.Timestamp r.
Proof. cbv zeta. repeat split. Qed.

(** X4. When a first submission has succeeded and its completion was
    recorded, and the codec decodes the payload it wrote, a second submission
    of the same request is answered with the response of the first, its
    message replaced by the duplicate notice. *)
Lemma duplicate_submission_returns_original w w' req st response payload :
  reward_requests st !! RewardRequest.EventID req = None ->
  fst (proc w req st) = Ok response ->
  fail_MarkProcessed w = None ->
  json_Marshal_response response = Some payload ->
  json_Unmarshal_response payload = Some response ->
  fail_GetByEventID w' = None ->
  fst (proc w' req (snd (proc w req st))) =
    Ok (RewardResponse.set_Message "Duplicate request - returning previous result" response).
Proof.
  intros Hfree Hok Hmark Hm Hu Hget.
  assert (Hv : validateRequest req = None).
  { destruct (validateRequest req) as [msg|] eqn:E; [|reflexivity].
    revert Hok. unfold process, ProcessReward, bind, fail, logf. cbn. rewrite E. discriminate. }
  destruct (process_success fmt_f fmt_d json_Marshal_request json_Marshal_response
              json_Unmarshal_response rs w req st response Hok)
    as [(_ & r & _ & _ & Hl & _)|(price & _ & _ & _ & _ & _ & [Hreq|[_ Hf]])];
    [congruence| |congruence].
  set (st' := snd (proc w req st)) in *.
  unfold process, ProcessReward, replay, rewardRequestRepo.GetByEventID,
    bind, try, fail, ret, logf. cbn.
  rewrite Hv, Hget. cbn. rewrite Hreq, lookup_insert_eq. cbn. rewrite Hm. cbn.
  now rewrite Hu.
Qed.

(** C4. Every reward the service has persisted is priced by its rule: the
    gross value is quantity times unit price, the fees are the service's fees
    of the gross value, and the net value is gross minus both fees when the
    quantity is positive and gross plus both fees when it is negative. *)
Theorem processed_rewards_are_priced st r :
  reach st -> r ∈ rewards st -> priced rs r.
Proof.
  intros [calls <-] Hr.
  pose proof (run_rewards_priced fmt_f fmt_d json_Marshal_request json_Marshal_response
                json_Unmarshal_response rs calls emptyStore) as H.
  specialize (H (List.Forall_nil _)). rewrite Forall_forall in H. now apply H.
Qed.

(** C6. A reward of negative quantity gets exactly two entries, CREDIT
    STOCK_ASSET and DEBIT ADJUSTMENT_EXPENSE, both for the absolute gross
    value, whatever its fees; the adjustment of quantity -5 at 100.00, whose
    fees are 0.50 and 0.25, gets CREDIT STOCK_ASSET 500 and DEBIT
    ADJUSTMENT_EXPENSE 500. *)
Theorem negative_reward_two_entries :
  (forall reward : models.Reward.t,
     float64.lt0 (models.Reward.Quantity reward) = true ->
     map ledger.posting (ledgerEntries fmt_f reward) =
       [ ("CREDIT", "STOCK_ASSET", abs (models.Reward.TotalValueINR reward));
         ("DEBIT", "ADJUSTMENT_EXPENSE", abs (models.Reward.TotalValueINR reward)) ]) /\
  (let reward := created NewRewardService demo.w_ok emptyStore demo.adjustment 100 in
   models.Reward.TotalValueINR reward = (-500)%float /\
   models.Reward.BrokerageFee reward = 0.5%float /\
   models.Reward.TransactionFee reward = 0.25%float /\
   map ledger.posting (ledgerEntries fmt_f reward) =
     [ ("CREDIT", "STOCK_ASSET", 500%float); ("DEBIT", "ADJUSTMENT_EXPENSE", 500%float) ]).
Proof.
  assert (H : forall reward : models.Reward.t,
     float64.lt0 (models.Reward.Quantity reward) = true ->
     map ledger.posting (ledgerEntries fmt_f reward) =
       [ ("CREDIT", "STOCK_ASSET", abs (models.Reward.TotalValueINR reward));
         ("DEBIT", "ADJUSTMENT_EXPENSE", abs (models.Reward.TotalValueINR reward)) ]).
  { intros reward Hq. unfold ledgerEntries.
    now rewrite (float64_facts.lt0_not_gt0 _ Hq). }
  split; [exact H|]. cbv zeta.
  split; [vm_compute; reflexivity|]. split; [vm_compute; reflexivity|].
  split; [vm_compute; reflexivity|].
  rewrite H by (vm_compute; reflexivity).
  vm_compute. reflexivity.
Qed.

(** C7. A request with an empty user id, an empty instrument symbol, an empty
    event id or a zero quantity is rejected with a validation error, and the
    call changes no table: no idempotency record, reward or ledger entry is
    created. *)
Theorem invalid_request_changes_nothing w req st :
  RewardRequest.UserID req = "" \/ RewardRequest.StockSymbol req = "" \/
  RewardRequest.EventID req = "" \/ float64.eq0 (RewardRequest.Quantity req) = true ->
  exists msg,
    validateRequest req = Some msg /\
    fst (proc w req st) = Err ("validation failed: " +:+ msg) /\
    same_tables st (snd (proc w req st)).
Proof.
  intros H. destruct (validateRequest_rejects req H) as [msg Hmsg].
  exists msg. split; [exact Hmsg|].
  unfold process, ProcessReward, bind, fail, logf. cbn. rewrite Hmsg. cbn.
  split; [reflexivity|]. repeat split.
Qed.

(** C8. The idempotency gate is the state machine [∅ → PROCESSING →
    COMPLETED]: every call moves the table [reward_requests] by [reserve] and
    [complete] steps only, each of which moves any record's status one step
    along the machine, so a reachable table holds no other status; a call that
    fails leaves the record of its event identifier absent or PROCESSING, and
    PROCESSING when it fails at the price service after a reserve; and once a
    record is PROCESSING at the start of a sequence of calls it is the same
    record at its end, and every call of the sequence for that event identifier
    has returned an error. *)
Theorem idempotency_gate_state_machine :
  (forall w req st, gate.steps (reward_requests st) (reward_requests (snd (proc w req st)))) /\
  (forall m m' eventID,
     gate.step m m' -> gate.moves (gate.status m eventID) (gate.status m' eventID)) /\
  (forall st, reach st -> gate.two_statuses (reward_requests st)) /\
  (forall w req st err,
     fst (proc w req st) = Err err ->
     reward_requests st !! RewardRequest.EventID req = None ->
     gate.status (reward_requests (snd (proc w req st))) (RewardRequest.EventID req) = None \/
     gate.status (reward_requests (snd (proc w req st))) (RewardRequest.EventID req)
       = Some "PROCESSING") /\
  (forall w req st err,
     validateRequest req = None ->
     reward_requests st !! RewardRequest.EventID req = None ->
     userRepo_Exists w (RewardRequest.UserID req) = Ok true ->
     fail_requestCreate w = None ->
     priceService_GetLatestPrice w (RewardRequest.StockSymbol req) = Err err ->
     fst (proc w req st) = Err ("failed to get stock price: " +:+ err) /\
     gate.status (reward_requests (snd (proc w req st))) (RewardRequest.EventID req)
       = Some "PROCESSING") /\
  (forall calls st eventID r,
     reward_requests st !! eventID = Some r ->
     models.RewardRequest.Status r = "PROCESSING" ->
     reward_requests (snd (runs calls st)) !! eventID = Some r /\
     Forall (fun o => RewardRequest.EventID (fst o) = eventID -> exists err, snd o = Err err)
            (fst (runs calls st))).
Proof.
  split; [apply process_gate_steps|]. split; [apply gate_step_moves|].
  split; [apply reachable_two_statuses|]. split; [|split].
  - intros w req st err Herr Hfree.
    destruct (process_error fmt_f fmt_d json_Marshal_request json_Marshal_response
                json_Unmarshal_response rs w req st err Herr) as (_ & _ & [->| [_ ->]]);
      unfold gate.status.
    + left. now rewrite Hfree.
    + right. now rewrite lookup_insert_eq.
  - intros w req st err Hv Hfree Hu Hc Hp.
    unfold process, ProcessReward, settle, rewardRequestRepo.GetByEventID,
      rewardRequestRepo.Create, bind, try, fail, ret, logf, gate.status. cbn.
    rewrite Hv. cbn. destruct (fail_GetByEventID w); cbn; rewrite ?Hfree; cbn;
      rewrite Hu, Hc; cbn; rewrite Hfree; cbn; rewrite Hp; cbn;
      (split; [reflexivity|now rewrite lookup_insert_eq]).
  - intros calls st eventID r Hl Hs. split.
    + now apply run_keeps_record.
    + now apply run_blocked with (r := r).
Qed.

(** C10. For a reward of finite non-zero quantity and non-negative unit price
    whose gross value is their product, every ledger entry has a non-negative
    amount, the currency INR, the reward's id, the reward's user and the
    reward's event id as its reference. *)
Theorem ledger_entries_well_formed (reward : models.Reward.t) e :
  float64.finite (models.Reward.Quantity reward) = true ->
  float64.eq0 (models.Reward.Quantity reward) = false ->
  float64.ge0 (models.Reward.StockPrice reward) = true ->
  models.Reward.TotalValueINR reward =
    (models.Reward.Quantity reward * models.Reward.StockPrice reward)%float ->
  e ∈ ledgerEntries fmt_f reward ->
  float64.ge0 (models.LedgerEntry.Amount e) = true /\
  models.LedgerEntry.Currency e = "INR" /\
  models.LedgerEntry.RewardID e = models.Reward.ID reward /\
  models.LedgerEntry.UserID e = models.Reward.UserID reward /\
  models.LedgerEntry.ReferenceID e = Some (models.Reward.EventID reward).
Proof.
  intros Hfin Hnz Hp Ht. unfold ledgerEntries.
  destruct (float64.gt0 (models.Reward.Quantity reward)) eqn:Hq.
  - pose proof (ieee_facts.mul_ge0 _ _ Hfin Hq Hp) as Hgross. rewrite <- Ht in Hgross.
    destruct (float64.gt0 (models.Reward.BrokerageFee reward)) eqn:Hb;
      destruct (float64.gt0 (models.Reward.TransactionFee reward)) eqn:Hf;
      cbn [app]; intros He;
      repeat (apply elem_of_cons in He as [->|He]); try (now apply elem_of_nil in He);
      cbn; repeat split; auto using float64_facts.gt0_ge0.
  - pose proof (ieee_facts.abs_mul_ge0 _ _ Hfin Hnz Hp) as Hgross. rewrite <- Ht in Hgross.
    intros He. repeat (apply elem_of_cons in He as [->|He]); try (now apply elem_of_nil in He);
      cbn; repeat split; auto.
Qed.

End Claims.

(** C3, where the code departs from the claim. When the batch insert of the
    ledger entries fails, [ProcessReward] logs the error and goes on: the call
    returns the success response, the reward row stays in [rewards] with no
    ledger entry, and the idempotency record is marked COMPLETED. *)
Theorem ledger_failure_is_swallowed :
  fst (demo.process demo.w_ledger_down demo.req services.emptyStore) = services.Ok demo.response /\
  services.rewards (snd (demo.process demo.w_ledger_down demo.req services.emptyStore))
    = [demo.reward] /\
  services.ledger_entries (snd (demo.process demo.w_ledger_down demo.req services.emptyStore)) = [] /\
  gate.status
    (services.reward_requests (snd (demo.process demo.w_ledger_down demo.req services.emptyStore)))
    "EVT-2024-001" = Some "COMPLETED" /\
  services.log (snd (demo.process demo.w_ledger_down demo.req services.emptyStore)) !! 1%nat
    = Some ("error",
            "Failed to create ledger entries: failed to insert ledger entry: connection reset").
Proof. repeat split; vm_compute; reflexivity. Qed.

(** C5. At the default rates the brokerage fee of a gross amount is
    [roundToTwoDecimals (|amount| × 0.1/100)] and the transaction fee is
    [roundToTwoDecimals (|amount| × 0.05/100)], where [roundToTwoDecimals v] is
    [Round (v × 100) / 100] and [Round] of a float [±m·2^-k] is the float of
    [±N], [N] the integer nearest to [m·2^-k] with halves rounded up, that is
    away from zero; quantity 10.5 at 175.50 gives gross 1842.75, brokerage
    1.84, transaction fee 0.92 and net 1839.99. *)
Theorem fees_at_default_rates :
  (forall amount,
     services.calculateBrokerage services.NewRewardService amount =
       services.roundToTwoDecimals (abs amount * (0.1 / 100))%float) /\
  (forall amount,
     services.calculateTransactionFee services.NewRewardService amount =
       services.roundToTwoDecimals (abs amount * (0.05 / 100))%float) /\
  ((0.1 / 100)%float = 0.001%float /\ (0.05 / 100)%float = 0.0005%float) /\
  (forall v, services.roundToTwoDecimals v = (float64.Round (v * 100) / 100)%float) /\
  (forall s m k,
     float64.SFRound (S754_finite s m (Zneg k)) =
       binary_normalize prec emax (cond_Zopp s (ieee.half_up (Zpos m) (Zpos k))) 0 s /\
     (IZR (ieee.half_up (Zpos m) (Zpos k)) - / 2 <= ieee.F2R (Zpos m) (Zneg k)
        < IZR (ieee.half_up (Zpos m) (Zpos k)) + / 2)%R) /\
  (float64.Round 0.5 = 1%float /\ float64.Round (-0.5) = (-1)%float /\
   float64.Round 2.5 = 3%float /\ float64.Round (-2.5) = (-3)%float /\
   float64.Round 184.275 = 184%float /\ float64.Round 92.1375 = 92%float) /\
  (models.Reward.TotalValueINR demo.reward = 1842.75%float /\
   models.Reward.BrokerageFee demo.reward = 1.84%float /\
   models.Reward.TransactionFee demo.reward = 0.92%float /\
   models.Reward.NetValueINR demo.reward = 1839.99%float).
Proof.
  split; [reflexivity|]. split; [reflexivity|].
  split; [split; vm_compute; reflexivity|]. split; [reflexivity|].
  split.
  { intros s m k. split; [apply ieee_facts.SFRound_finite|].
    apply (ieee_facts.half_up_bounds (Zpos m) (Zpos k)); lia. }
  split; repeat split; vm_compute; reflexivity.
Qed.

(** C9, as amended. [roundToTwoDecimals] is idempotent on every float of
    magnitude at most [2^44 = 17592186044416]. *)
Theorem roundToTwoDecimals_idempotent_below_2_44 x :
  (abs x <=? 17592186044416)%float = true ->
  services.roundToTwoDecimals (services.roundToTwoDecimals x) = services.roundToTwoDecimals x.
Proof.
  intros Hx. apply Prim2SF_inj. rewrite !ieee_facts.roundToTwoDecimals_spec.
  rewrite FloatAxioms.leb_spec, abs_spec in Hx.
  pose proof (Prim2SF_valid x) as Hv.
  destruct (Prim2SF x) as [s|s| |s m e].
  - now rewrite !ieee_facts.SFround2_zero.
  - discriminate.
  - discriminate.
  - apply ieee_facts.SFround2_idempotent_finite. now apply (ieee_facts.leb_two_44 s).
Qed.

(** ** Counterexamples to the claims as stated *)

(** C2 as stated fails: the event identifier of a COMPLETED record whose
    cached payload decodes, submitted again without a user id, is answered
    with a validation error and not with the cached response; and the very
    same request submitted again while the lookup fails is answered with the
    error of the reserve. *)
Lemma completed_replay_of_invalid_request_fails :
  gate.status (services.reward_requests demo.processed) "EVT-2024-001" = Some "COMPLETED" /\
  (models.RewardRequest.ResponsePayload <$> services.reward_requests demo.processed !! "EVT-2024-001")
    = Some (Some "{response}") /\
  demo.json_Unmarshal_response "{response}" = Some demo.response /\
  fst (demo.process demo.w_ok demo.req_no_user demo.processed)
    = services.Err "validation failed: user_id is required" /\
  fst (demo.process demo.w_lookup_down demo.req demo.processed)
    = services.Err
        "failed to create idempotency record: duplicate key value violates unique constraint".
Proof. repeat split; vm_compute; reflexivity. Qed.

(** C9 as stated fails: at the finite float [2^45 + 1/8] a second rounding
    moves the result by one more hundredth. *)
Lemma roundToTwoDecimals_not_idempotent_at_2_45 :
  float64.finite 35184372088832.125 = true /\
  services.roundToTwoDecimals 35184372088832.125 = 35184372088832.13%float /\
  services.roundToTwoDecimals (services.roundToTwoDecimals 35184372088832.125)
    = 35184372088832.14%float /\
  services.roundToTwoDecimals (services.roundToTwoDecimals 35184372088832.125)
    <> services.roundToTwoDecimals 35184372088832.125.
Proof.
  split; [vm_compute; reflexivity|]. split; [vm_compute; reflexivity|].
  split; [vm_compute; reflexivity|].
  intros H. apply (f_equal (fun v => PrimFloat.eqb v 35184372088832.13)) in H.
  vm_compute in H. discriminate.
Qed.

(** ** The theorems at the worked example *)

Lemma replay_of_completed_witness :
  fst (demo.process demo.w_ok demo.req demo.processed) =
    services.Ok (services.RewardResponse.set_Message
                   "Duplicate request - returning previous result" demo.response) /\
  services.same_tables demo.processed (snd (demo.process demo.w_ok demo.req demo.processed)).
Proof.
  eapply (replay_of_completed demo.fmt_f demo.fmt_d demo.json_Marshal_request
            demo.json_Marshal_response demo.json_Unmarshal_response demo.rs
            demo.w_ok demo.req demo.processed).
  - vm_compute; reflexivity.
  - reflexivity.
  - vm_compute; reflexivity.
  - vm_compute; reflexivity.
  - vm_compute; reflexivity.
  - vm_compute; reflexivity.
Defined.

Lemma processed_rewards_are_priced_witness : priced demo.rs demo.reward.
Proof.
  apply (processed_rewards_are_priced demo.fmt_f demo.fmt_d demo.json_Marshal_request
           demo.json_Marshal_response demo.json_Unmarshal_response demo.rs demo.processed).
  - exists [(demo.w_ok, demo.req)]. vm_compute; reflexivity.
  - vm_compute. constructor.
Defined.

Lemma negative_reward_two_entries_witness :
  map ledger.posting
      (services.ledgerEntries demo.fmt_f
         (services.created services.NewRewardService demo.w_ok services.emptyStore demo.adjustment 100)) =
    [ ("CREDIT", "STOCK_ASSET",
       abs (models.Reward.TotalValueINR
              (services.created services.NewRewardService demo.w_ok services.emptyStore
                 demo.adjustment 100)));
      ("DEBIT", "ADJUSTMENT_EXPENSE",
       abs (models.Reward.TotalValueINR
              (services.created services.NewRewardService demo.w_ok services.emptyStore
                 demo.adjustment 100))) ].
Proof.
  apply (proj1 (negative_reward_two_entries demo.fmt_f)). vm_compute; reflexivity.
Defined.

Lemma invalid_request_changes_nothing_witness :
  exists msg,
    services.validateRequest demo.req_no_user = Some msg /\
    fst (demo.process demo.w_ok demo.req_no_user demo.processed)
      = services.Err ("validation failed: " +:+ msg) /\
    services.same_tables demo.processed (snd (demo.process demo.w_ok demo.req_no_user demo.processed)).
Proof.
  apply (invalid_request_changes_nothing demo.fmt_f demo.fmt_d demo.json_Marshal_request
           demo.json_Marshal_response demo.json_Unmarshal_response demo.rs).
  left. reflexivity.
Defined.

Lemma idempotency_gate_state_machine_witness :
  gate.status (services.reward_requests demo.stuck) "EVT-2024-001" = Some "PROCESSING" /\
  Forall (fun o => services.RewardRequest.EventID (fst o) = "EVT-2024-001" ->
                   exists err, snd o = services.Err err)
         (fst (run demo.fmt_f demo.fmt_d demo.json_Marshal_request demo.json_Marshal_response
                 demo.json_Unmarshal_response demo.rs
                 [(demo.w_ok, demo.req); (demo.w_ok, demo.req)] demo.stuck)).
Proof.
  split; [vm_compute; reflexivity|].
  eapply (proj2 (proj2 (proj2 (proj2 (proj2 (idempotency_gate_state_machine demo.fmt_f demo.fmt_d
            demo.json_Marshal_request demo.json_Marshal_response demo.json_Unmarshal_response
            demo.rs)))))).
  - vm_compute; reflexivity.
  - vm_compute; reflexivity.
Defined.

Lemma roundToTwoDecimals_idempotent_below_2_44_witness :
  services.roundToTwoDecimals (services.roundToTwoDecimals 1842.755) =
    services.roundToTwoDecimals 1842.755.
Proof.
  apply roundToTwoDecimals_idempotent_below_2_44. vm_compute; reflexivity.
Defined.

Lemma ledger_entries_well_formed_witness :
  Forall (fun e =>
            float64.ge0 (models.LedgerEntry.Amount e) = true /\
            models.LedgerEntry.Currency e = "INR" /\
            models.LedgerEntry.RewardID e = models.Reward.ID demo.reward /\
            models.LedgerEntry.UserID e = models.Reward.UserID demo.reward /\
            models.LedgerEntry.ReferenceID e = Some (models.Reward.EventID demo.reward))
         (services.ledgerEntries demo.fmt_f demo.reward).
Proof.
  apply Forall_forall. intros e He.
  apply (ledger_entries_well_formed demo.fmt_f demo.reward e); try (vm_compute; reflexivity).
  exact He.
Defined.

(** * Beyond the claims

    What the rest of the code shows: what one call of [ProcessReward] does to
    each table and which of them a failure leaves behind, the constraints that
    tie the tables together in every store the service can bring about, what
    [GetRewardByEventID] and [ValidateBalance] read back from such a store,
    the symmetry of a reward and the adjustment that takes it back, and the
    price service's mock prices and symbol list. *)

(** ** What one call does to the tables *)

Section Tables.

Import services.

Variable fmt_f : nat -> float -> string.
Variable fmt_d : Z -> string.
Variable json_Marshal_request : RewardRequest.t -> option string.
Variable json_Marshal_response : RewardResponse.t -> option string.
Variable json_Unmarshal_response : string -> option RewardResponse.t.
Variable rs : RewardService.

Abbreviation proc :=
  (process fmt_f fmt_d json_Marshal_request json_Marshal_response json_Unmarshal_response rs).
Abbreviation runs :=
  (run fmt_f fmt_d json_Marshal_request json_Marshal_response json_Unmarshal_response rs).
Abbreviation pend := (pending json_Marshal_request).
Abbreviation made := (created rs).
Abbreviation reach :=
  (reachable fmt_f fmt_d json_Marshal_request json_Marshal_response json_Unmarshal_response rs).
Abbreviation sound := (integrity fmt_f json_Marshal_response).

Ltac unfold_call :=
  unfold process, ProcessReward, settle, replay, createLedgerEntries,
    rewardRequestRepo.GetByEventID, rewardRequestRepo.Create, rewardRequestRepo.MarkProcessed,
    rewardRepo.Create, ledgerRepo.BulkCreate, bind, try, fail, ret, logf in *; cbn in *.

(** The tables after one call, whatever it returned: nothing has changed, or
    the event has been reserved and nothing else, or it has been reserved, one
    reward has been inserted under a fresh identifier, and its ledger entries
    and the completion of the record may or may not have been written. *)
Lemma process_tables w req st :
  let st' := snd (proc w req st) in
  same_tables st st' \/
  (reward_requests st !! RewardRequest.EventID req = None /\
   reward_requests_seq st' = (reward_requests_seq st + 1)%Z /\
   ((reward_requests st' = <[RewardRequest.EventID req := pend w st req]> (reward_requests st) /\
     rewards st' = rewards st /\ rewards_seq st' = rewards_seq st /\
     ledger_entries st' = ledger_entries st) \/
    (exists price,
       Forall (fun r => models.Reward.EventID r <> RewardRequest.EventID req) (rewards st) /\
       rewards st' = rewards st ++ [made w st req price] /\
       rewards_seq st' = (rewards_seq st + 1)%Z /\
       (ledger_entries st' = ledger_entries st \/
        ledger_entries st' = ledger_entries st ++ ledgerEntries fmt_f (made w st req price)) /\
       (reward_requests st' = <[RewardRequest.EventID req := pend w st req]> (reward_requests st) \/
        reward_requests st' =
          <[RewardRequest.EventID req :=
              rewardRequestRepo.completed w
                (payload_string (json_Marshal_response (newResponse w (made w st req price))))
                (pend w st req)]> (reward_requests st))))).
Proof.
  cbv zeta. unfold pending, created. unfold_call.
  repeat (case_match; cbn in *; simplify_eq); cbn.
  all: try (left; repeat split; fail).
  all: right; split; [first [assumption|reflexivity]|]; split; [reflexivity|].
  all: try (left; repeat split; fail).
  all: right; eexists; split; [|split; [reflexivity|split; [reflexivity|]]].
  all: rewrite ?alter_insert_eq.
  all: try (split; [auto|auto]; fail).
  all: try match goal with H : existsb _ _ = false |- Forall _ _ =>
         apply Forall_forall; intros r Hr Heq;
         apply not_true_iff_false in H; apply H; apply existsb_exists;
         exists r; split; [now apply list_elem_of_In|now apply String.eqb_eq]
       end.
Qed.

Lemma process_append_only w req st :
  rewards st `prefix_of` rewards (snd (proc w req st)) /\
  ledger_entries st `prefix_of` ledger_entries (snd (proc w req st)) /\
  reward_requests st ⊆ reward_requests (snd (proc w req st)).
Proof.
  pose proof (process_tables w req st) as H. cbv zeta in H.
  destruct H as [(H1 & _ & H3 & _ & H5)
                |(Hfree & _ & [(Hreq & Hrew & _ & Hled)|(price & _ & Hrew & _ & Hled & Hreq)])].
  - rewrite H1, H3, H5. done.
  - rewrite Hreq, Hrew, Hled. split; [done|]. split; [done|]. now apply insert_subseteq.
  - rewrite Hrew. split; [apply prefix_app_r; done|]. split.
    + destruct Hled as [-> | ->]; [done|apply prefix_app_r; done].
    + destruct Hreq as [-> | ->]; now apply insert_subseteq.
Qed.


(** *** Referential integrity *)

Lemma integrity_empty : sound emptyStore.
Proof.
  split; cbn.
  - constructor.
  - constructor.
  - constructor.
  - intros r Hr. now apply elem_of_nil in Hr.
  - intros e He. now apply elem_of_nil in He.
  - intros e rec Hl. now rewrite lookup_empty in Hl.
Qed.

Lemma integrity_same_tables st st' : same_tables st st' -> sound st -> sound st'.
Proof.
  intros (H1 & H2 & H3 & H4 & H5) [I1 I2 I3 I4 I5 I6].
  split; rewrite ?H1, ?H3, ?H4, ?H5; assumption.
Qed.

Lemma process_integrity w req st : sound st -> sound (snd (proc w req st)).
Proof.
  intros Hst. pose proof (process_tables w req st) as H. cbv zeta in H.
  set (st' := snd (proc w req st)) in *. clearbody st'.
  destruct H as [Hsame|(Hfree & Hseq & [(Hreq & Hrew & Hrs & Hled)
                                       |(price & Hnew & Hrew & Hrs & Hled & Hreq)])].
  - now apply integrity_same_tables with (st := st).
  - destruct Hst as [I1 I2 I3 I4 I5 I6]. split; rewrite ?Hreq, ?Hrew, ?Hrs, ?Hled; try assumption.
    + intros r Hr. destruct (I4 r Hr) as (rec & Hl & Hrec). exists rec. split; [|exact Hrec].
      rewrite lookup_insert_ne; [exact Hl|]. intros E. rewrite <- E in Hl. congruence.
    + intros e rec. destruct (decide (RewardRequest.EventID req = e)) as [<-|Hne].
      * rewrite lookup_insert_eq. intros [= <-]. discriminate.
      * rewrite lookup_insert_ne by exact Hne. apply I6.
  - destruct Hst as [I1 I2 I3 I4 I5 I6].
    set (reward := made w st req price) in *.
    assert (Hfresh : models.Reward.EventID reward ∉ map models.Reward.EventID (rewards st)).
    { intros Hin. apply list_elem_of_fmap in Hin as (r & Heq & Hr).
      rewrite Forall_forall in Hnew. apply (Hnew r Hr). now rewrite <- Heq. }
    assert (Hold : forall eventID rec,
              reward_requests st !! eventID = Some rec ->
              reward_requests st' !! eventID = Some rec).
    { intros e rec Hl. assert (RewardRequest.EventID req <> e) by (intros <-; congruence).
      destruct Hreq as [-> | ->]; now rewrite lookup_insert_ne. }
    split; rewrite ?Hrew, ?Hrs.
    + apply Forall_app. split.
      * eapply Forall_impl; [exact I1|]. cbn. intros; lia.
      * constructor; [cbn; lia|constructor].
    + rewrite map_app. apply NoDup_app. split; [exact I2|]. split; [|apply NoDup_singleton].
      intros id Hid Hid'. apply list_elem_of_singleton in Hid'. subst id.
      apply list_elem_of_fmap in Hid as (r & Heq & Hr).
      rewrite Forall_forall in I1. specialize (I1 r Hr). cbn in Heq. lia.
    + rewrite map_app. apply NoDup_app. split; [exact I3|]. split; [|apply NoDup_singleton].
      intros e He He'. apply list_elem_of_singleton in He'. subst e. now apply Hfresh.
    + intros r Hr. apply elem_of_app in Hr as [Hr|Hr].
      * destruct (I4 r Hr) as (rec & Hl & Hrec). exists rec. split; [now apply Hold|exact Hrec].
      * apply list_elem_of_singleton in Hr. subst r.
        destruct Hreq as [-> | ->]; eexists; (split; [apply lookup_insert_eq|repeat split]).
    + intros e He. destruct Hled as [Hled|Hled]; rewrite Hled in He.
      * destruct (I5 e He) as (r & Hr & Her). exists r. split; [|exact Her].
        apply elem_of_app. now left.
      * apply elem_of_app in He as [He|He].
        -- destruct (I5 e He) as (r & Hr & Her). exists r. split; [|exact Her].
           apply elem_of_app. now left.
        -- exists reward. split; [|exact He]. apply elem_of_app. right. apply list_elem_of_here.
    + intros e rec Hl Hs.
      destruct (decide (RewardRequest.EventID req = e)) as [<-|Hne].
      * destruct Hreq as [Hreq|Hreq]; rewrite Hreq, lookup_insert_eq in Hl; injection Hl as <-.
        -- discriminate.
        -- exists reward, w. split; [apply elem_of_app; right; apply list_elem_of_here|].
           repeat split.
      * assert (Hl' : reward_requests st !! e = Some rec).
        { destruct Hreq as [Hreq|Hreq]; rewrite Hreq, lookup_insert_ne in Hl by exact Hne; exact Hl. }
        destruct (I6 e rec Hl' Hs) as (r & w0 & Hr & He & Hrec & Hp).
        exists r, w0. split; [apply elem_of_app; now left|]. auto.
Qed.

Lemma run_integrity calls st : sound st -> sound (snd (runs calls st)).
Proof.
  revert st. induction calls as [|[w req] calls IH]; intros st Hst; [exact Hst|].
  rewrite run_cons. cbn [snd]. apply IH. now apply process_integrity.
Qed.

Lemma reachable_integrity st : reach st -> sound st.
Proof. intros [calls <-]. apply run_integrity, integrity_empty. Qed.

(** An event without a record has no reward, so the insert of its reward
    meets no duplicate key. *)
Lemma unrewarded_event st eventID :
  sound st -> reward_requests st !! eventID = None ->
  existsb (fun r => String.eqb (models.Reward.EventID r) eventID) (rewards st) = false.
Proof.
  intros Hst Hfree. apply not_true_iff_false. intros H.
  apply existsb_exists in H as (r & Hr & Heq). apply String.eqb_eq in Heq. subst eventID.
  apply list_elem_of_In in Hr. destruct (rewards_reserved _ _ _ Hst r Hr) as (rec & Hl & _).
  congruence.
Qed.

Lemma ledgerEntries_fields reward e :
  e ∈ ledgerEntries fmt_f reward ->
  models.LedgerEntry.RewardID e = models.Reward.ID reward /\
  models.LedgerEntry.UserID e = models.Reward.UserID reward /\
  models.LedgerEntry.ReferenceID e = Some (models.Reward.EventID reward).
Proof.
  unfold ledgerEntries.
  destruct (float64.gt0 (models.Reward.Quantity reward));
    [destruct (float64.gt0 (models.Reward.BrokerageFee reward));
     destruct (float64.gt0 (models.Reward.TransactionFee reward))|];
    cbn [app]; intros He;
    repeat (apply elem_of_cons in He as [->|He]); try (now apply elem_of_nil in He);
    repeat split.
Qed.

(** *** The two sides of a reward's entries in the table *)

Lemma side_app rewardID entryType l1 l2 :
  ledger.side rewardID entryType (l1 ++ l2) =
    ledger.side rewardID entryType l1 ++ ledger.side rewardID entryType l2.
Proof. unfold ledger.side. now rewrite List.filter_app, map_app. Qed.

Lemma ledgerEntries_sides reward rewardID :
  ledger.side rewardID "DEBIT" (ledgerEntries fmt_f reward) =
    ledger.side rewardID "CREDIT" (ledgerEntries fmt_f reward).
Proof.
  unfold ledgerEntries, ledger.side.
  destruct (float64.gt0 (models.Reward.Quantity reward));
    [destruct (float64.gt0 (models.Reward.BrokerageFee reward));
     destruct (float64.gt0 (models.Reward.TransactionFee reward))|];
    cbn; destruct (Z.eqb (models.Reward.ID reward) rewardID); reflexivity.
Qed.

Lemma process_sides w req st rewardID :
  ledger.side rewardID "DEBIT" (ledger_entries st) =
    ledger.side rewardID "CREDIT" (ledger_entries st) ->
  ledger.side rewardID "DEBIT" (ledger_entries (snd (proc w req st))) =
    ledger.side rewardID "CREDIT" (ledger_entries (snd (proc w req st))).
Proof.
  intros Hst. pose proof (process_tables w req st) as H. cbv zeta in H.
  destruct H as [(_ & _ & _ & _ & ->)
                |(_ & _ & [(_ & _ & _ & ->)|(price & _ & _ & _ & [-> | ->] & _)])];
    try exact Hst.
  rewrite !side_app, Hst. f_equal. apply ledgerEntries_sides.
Qed.

Lemma run_sides calls st rewardID :
  ledger.side rewardID "DEBIT" (ledger_entries st) =
    ledger.side rewardID "CREDIT" (ledger_entries st) ->
  ledger.side rewardID "DEBIT" (ledger_entries (snd (runs calls st))) =
    ledger.side rewardID "CREDIT" (ledger_entries (snd (runs calls st))).
Proof.
  revert st. induction calls as [|[w req] calls IH]; intros st Hst; [exact Hst|].
  rewrite run_cons. cbn [snd]. apply IH. now apply process_sides.
Qed.

(** *** Reading a reward back *)



(** *** Replays *)

Abbreviation duplicate := "Duplicate request - returning previous result".

(** Once an event has a record, every later success for it is a replay of
    that record. *)
Lemma run_replays calls : forall st eventID rec,
  reward_requests st !! eventID = Some rec ->
  Forall (fun o => RewardRequest.EventID (fst o) = eventID ->
                   forall response, snd o = Ok response ->
                   models.RewardRequest.Status rec = "COMPLETED" /\
                   exists payload r0,
                     models.RewardRequest.ResponsePayload rec = Some payload /\
                     json_Unmarshal_response payload = Some r0 /\
                     response = RewardResponse.set_Message duplicate r0)
         (fst (runs calls st)).
Proof.
  induction calls as [|[w req] calls IH]; intros st eventID rec Hl; [constructor|].
  rewrite run_cons. cbn [fst]. constructor.
  - cbn [fst snd]. intros <- response Hok.
    destruct (process_existing_event fmt_f fmt_d json_Marshal_request json_Marshal_response
                json_Unmarshal_response rs w req st rec Hl) as [_ H].
    now apply H.
  - apply IH. now apply process_keeps_record.
Qed.

(** ** The orchestrator, beyond the claims *)

(** X1. A valid request for an event that has no record, in a store the
    service has brought about and a world where the user exists, the price
    service answers and no database round trip fails, is processed to the
    end: the call returns the response built from the reward row it inserted,
    the row is the only one added to [rewards], its ledger entries are the
    only ones added to [ledger_entries], and the event's record is COMPLETED
    and caches the encoded response. *)
Theorem fresh_request_is_processed w req st price :
  reach st ->
  validateRequest req = None ->
  reward_requests st !! RewardRequest.EventID req = None ->
  userRepo_Exists w (RewardRequest.UserID req) = Ok true ->
  priceService_GetLatestPrice w (RewardRequest.StockSymbol req) = Ok price ->
  fail_requestCreate w = None -> fail_rewardCreate w = None ->
  fail_BulkCreate w = None -> fail_MarkProcessed w = None ->
  let reward := made w st req price in
  let response := newResponse w reward in
  let st' := snd (proc w req st) in
  fst (proc w req st) = Ok response /\
  rewards st' = rewards st ++ [reward] /\
  ledger_entries st' = ledger_entries st ++ ledgerEntries fmt_f reward /\
  reward_requests st' =
    <[RewardRequest.EventID req :=
        rewardRequestRepo.completed w (payload_string (json_Marshal_response response))
          (pend w st req)]> (reward_requests st).
Proof.
  intros Hreach Hv Hfree Hu Hp Hc Hr Hb Hm. cbv zeta.
  pose proof (unrewarded_event st _ (reachable_integrity st Hreach) Hfree) as Hnone.
  unfold pending, created.
  unfold process, ProcessReward, settle, createLedgerEntries,
    rewardRequestRepo.GetByEventID, rewardRequestRepo.Create, rewardRequestRepo.MarkProcessed,
    rewardRepo.Create, ledgerRepo.BulkCreate, bind, try, fail, ret, logf. cbn.
  rewrite Hv. cbn.
  destruct (fail_GetByEventID w); cbn; rewrite ?Hfree; cbn; rewrite Hu, Hc; cbn;
    rewrite Hfree; cbn; rewrite Hp, Hr; cbn; rewrite Hnone; cbn;
    rewrite (ledgerEntries_nonempty fmt_f), Hb; cbn; rewrite Hm; cbn;
    rewrite alter_insert_eq; repeat split.
Qed.

(** X2. Every error of [ProcessReward] names the step that failed, and only
    two of them leave something behind.  A validation error, "request already
    processing or failed", a failed or negative user check and a failed
    reserve change no table.  A failure of the price service or of the reward
    insert (whose message carries the prefix "failed to create reward" twice,
    once from the repository and once from the service) leaves the event
    reserved as PROCESSING, with no reward and no ledger entry. *)
Theorem failed_call_names_its_step w req st err :
  fst (proc w req st) = Err err ->
  let st' := snd (proc w req st) in
  (same_tables st st' /\
   ((exists msg, validateRequest req = Some msg /\ err = "validation failed: " +:+ msg) \/
    (err = "request already processing or failed" /\
     exists r, reward_requests st !! RewardRequest.EventID req = Some r) \/
    (exists e, userRepo_Exists w (RewardRequest.UserID req) = Err e /\
               err = "failed to check user existence: " +:+ e) \/
    (userRepo_Exists w (RewardRequest.UserID req) = Ok false /\
     err = "user " +:+ RewardRequest.UserID req +:+ " does not exist") \/
    (exists e, err = "failed to create idempotency record: " +:+ e))) \/
  (rewards st' = rewards st /\ ledger_entries st' = ledger_entries st /\
   reward_requests st !! RewardRequest.EventID req = None /\
   reward_requests st' = <[RewardRequest.EventID req := pend w st req]> (reward_requests st) /\
   ((exists e, priceService_GetLatestPrice w (RewardRequest.StockSymbol req) = Err e /\
               err = "failed to get stock price: " +:+ e) \/
    (exists e, err = "failed to create reward: failed to create reward: " +:+ e))).
Proof.
  cbv zeta. unfold pending. unfold_call.
  repeat (case_match; cbn in *; simplify_eq); intros Hr; cbn in *; simplify_eq.
  all: try (left; split; [repeat split|]; eauto 10; fail).
  all: right; repeat split; eauto.
Qed.

(** X3. When everything succeeds but the completion of the idempotency
    record ([MarkProcessed]), the call still returns the success response
    and the reward is granted, but the record stays PROCESSING: whatever calls
    follow, the record is the same, and every one of them for that event
    returns an error, so the granted result can never be replayed. *)
Theorem unrecorded_completion_blocks_replay w req st price e calls :
  reach st ->
  validateRequest req = None ->
  reward_requests st !! RewardRequest.EventID req = None ->
  userRepo_Exists w (RewardRequest.UserID req) = Ok true ->
  priceService_GetLatestPrice w (RewardRequest.StockSymbol req) = Ok price ->
  fail_requestCreate w = None -> fail_rewardCreate w = None ->
  fail_MarkProcessed w = Some e ->
  let st' := snd (proc w req st) in
  fst (proc w req st) = Ok (newResponse w (made w st req price)) /\
  rewards st' = rewards st ++ [made w st req price] /\
  gate.status (reward_requests st') (RewardRequest.EventID req) = Some "PROCESSING" /\
  reward_requests (snd (runs calls st')) !! RewardRequest.EventID req
    = reward_requests st' !! RewardRequest.EventID req /\
  Forall (fun o => RewardRequest.EventID (fst o) = RewardRequest.EventID req ->
                   exists err, snd o = Err err)
         (fst (runs calls st')).
Proof.
  intros Hreach Hv Hfree Hu Hp Hc Hr Hm. cbv zeta.
  pose proof (unrewarded_event st _ (reachable_integrity st Hreach) Hfree) as Hnone.
  assert (H : fst (proc w req st) = Ok (newResponse w (made w st req price)) /\
              rewards (snd (proc w req st)) = rewards st ++ [made w st req price] /\
              reward_requests (snd (proc w req st)) !! RewardRequest.EventID req
                = Some (pend w st req)).
  { unfold pending, created.
    unfold process, ProcessReward, settle, createLedgerEntries,
      rewardRequestRepo.GetByEventID, rewardRequestRepo.Create, rewardRequestRepo.MarkProcessed,
      rewardRepo.Create, ledgerRepo.BulkCreate, bind, try, fail, ret, logf. cbn.
    rewrite Hv. cbn.
    destruct (fail_GetByEventID w); cbn; rewrite ?Hfree; cbn; rewrite Hu, Hc; cbn;
      rewrite Hfree; cbn; rewrite Hp, Hr; cbn; rewrite Hnone; cbn;
      rewrite (ledgerEntries_nonempty fmt_f); destruct (fail_BulkCreate w); cbn;
      rewrite Hm; cbn; rewrite lookup_insert_eq; repeat split. }
  destruct H as (H1 & H2 & H3). split; [exact H1|]. split; [exact H2|].
  split; [unfold gate.status; now rewrite H3|]. split.
  - rewrite H3. now apply run_keeps_record.
  - now apply run_blocked with (r := pend w st req).
Qed.

(** X5. Any two successful answers to the same event agree.  When the codec
    decodes what it encoded and does not decode the empty payload, then in
    every sequence of calls, from any store, a success for an event that
    comes after another success for it is the earlier response with its
    message replaced by the duplicate notice. *)
Theorem answers_to_an_event_agree calls st i j req req' r r' :
  (forall x payload, json_Marshal_response x = Some payload ->
                     json_Unmarshal_response payload = Some x) ->
  json_Unmarshal_response "" = None ->
  (i < j)%nat ->
  fst (runs calls st) !! i = Some (req, Ok r) ->
  fst (runs calls st) !! j = Some (req', Ok r') ->
  RewardRequest.EventID req' = RewardRequest.EventID req ->
  r' = RewardResponse.set_Message duplicate r.
Proof.
  intros Hcodec Hempty. revert st i j.
  induction calls as [|[w rq] calls IH]; intros st i j Hij Hi Hj He; [discriminate|].
  rewrite run_cons in Hi, Hj. cbn [fst] in Hi, Hj.
  destruct j as [|j]; [lia|]. cbn in Hj.
  destruct i as [|i]; [|apply (IH (snd (proc w rq st)) i j); [lia|exact Hi|exact Hj|exact He]].
  cbn in Hi. injection Hi as -> Hr.
  assert (Hlater : forall rec,
            reward_requests (snd (proc w req st)) !! RewardRequest.EventID req = Some rec ->
            models.RewardRequest.Status rec = "COMPLETED" /\
            exists payload r0,
              models.RewardRequest.ResponsePayload rec = Some payload /\
              json_Unmarshal_response payload = Some r0 /\
              r' = RewardResponse.set_Message duplicate r0).
  { intros rec Hl.
    pose proof (run_replays calls _ _ rec Hl) as H.
    rewrite Forall_lookup in H. apply (H j (req', Ok r') Hj); [exact He|reflexivity]. }
  destruct (process_success fmt_f fmt_d json_Marshal_request json_Marshal_response
              json_Unmarshal_response rs w req st r Hr)
    as [((Hsame & _) & rec & payload & r0 & Hl & Hs & Hp & Hu & ->)
       |(price & Hfree & _ & Hresp & _ & _ & [Hreq|[Hreq _]])].
  - destruct (Hlater rec) as (_ & payload' & r0' & Hp' & Hu' & ->); [now rewrite Hsame|].
    assert (r0' = r0) as -> by congruence. reflexivity.
  - destruct (Hlater _ ltac:(rewrite Hreq; apply lookup_insert_eq))
      as (_ & payload' & r0' & Hp' & Hu' & ->).
    cbn in Hp'. injection Hp' as <-.
    destruct (json_Marshal_response r) as [payload|] eqn:E; cbn in Hu'.
    + rewrite (Hcodec _ _ E) in Hu'. now injection Hu' as <-.
    + congruence.
  - destruct (Hlater _ ltac:(rewrite Hreq; apply lookup_insert_eq)) as (Hs & _).
    discriminate Hs.
Qed.

(** X6. Between calls the tables only grow: whatever sequence of calls is
    run from a store, the rewards and the ledger entries it held are a prefix
    of the ones it holds afterwards, and every idempotency record it held is
    still there, unchanged. *)
Theorem tables_are_append_only calls (st : Store) :
  let st' := snd (run fmt_f fmt_d json_Marshal_request json_Marshal_response
                    json_Unmarshal_response rs calls st) in
  rewards st `prefix_of` rewards st' /\
  ledger_entries st `prefix_of` ledger_entries st' /\
  reward_requests st ⊆ reward_requests st'.
Proof.
  cbv zeta. revert st. induction calls as [|[w req] calls IH]; intros st; [done|].
  rewrite run_cons. cbn [snd].
  destruct (process_append_only w req st) as (H1 & H2 & H3).
  destruct (IH (snd (proc w req st))) as (G1 & G2 & G3).
  split; [etrans; eauto|]. split; etrans; eauto.
Qed.

(** X7. No event is rewarded twice: in every store the service can bring
    about, no two reward rows share an event identifier or a row identifier,
    and every reward row has the idempotency record of its event, which
    carries the same user, symbol and quantity. *)
Theorem no_event_is_rewarded_twice st :
  reach st ->
  NoDup (map models.Reward.EventID (rewards st)) /\
  NoDup (map models.Reward.ID (rewards st)) /\
  (forall r, r ∈ rewards st ->
     exists rec, reward_requests st !! models.Reward.EventID r = Some rec /\ reserved_by rec r).
Proof.
  intros Hreach. pose proof (reachable_integrity st Hreach) as [I1 I2 I3 I4 I5 I6]. auto.
Qed.

(** X8. A COMPLETED record is never without its reward: in every store the
    service can bring about, the event of a COMPLETED record has a reward row
    for the same user, symbol and quantity, and the payload the record caches
    is the encoding of the response built from that row. *)
Theorem completed_record_has_its_reward st eventID rec :
  reach st ->
  reward_requests st !! eventID = Some rec ->
  models.RewardRequest.Status rec = "COMPLETED" ->
  exists r w, r ∈ rewards st /\ models.Reward.EventID r = eventID /\
    reserved_by rec r /\
    models.RewardRequest.ResponsePayload rec =
      Some (payload_string (json_Marshal_response (newResponse w r))).
Proof.
  intros Hreach. apply (completed_rewarded _ _ _ (reachable_integrity st Hreach)).
Qed.

(** X9. No ledger entry is an orphan: in every store the service can bring
    about, each ledger entry is one of the entries [createLedgerEntries]
    builds for a reward row of the store, and carries that row's identifier,
    its user and its event identifier as reference. *)
Theorem ledger_entries_belong_to_rewards st e :
  reach st -> e ∈ ledger_entries st ->
  exists r, r ∈ rewards st /\ e ∈ ledgerEntries fmt_f r /\
    models.LedgerEntry.RewardID e = models.Reward.ID r /\
    models.LedgerEntry.UserID e = models.Reward.UserID r /\
    models.LedgerEntry.ReferenceID e = Some (models.Reward.EventID r).
Proof.
  intros Hreach He.
  destruct (entries_owned _ _ _ (reachable_integrity st Hreach) e He) as (r & Hr & Her).
  exists r. split; [exact Hr|]. split; [exact Her|]. now apply ledgerEntries_fields.
Qed.

(** X10. The stored ledger balances reward by reward: in every store the
    service can bring about, and for every reward identifier, the DEBIT
    amounts and the CREDIT amounts recorded for it are the same list, so any
    way of adding them up gives equal totals. *)
Theorem stored_ledger_balances_per_reward st rewardID :
  reach st ->
  ledger.side rewardID "DEBIT" (ledger_entries st) =
    ledger.side rewardID "CREDIT" (ledger_entries st) /\
  ledger.sum (ledger.side rewardID "DEBIT" (ledger_entries st)) =
    ledger.sum (ledger.side rewardID "CREDIT" (ledger_entries st)).
Proof.
  intros [calls <-]. pose proof (run_sides calls emptyStore rewardID eq_refl) as H.
  split; [exact H|now rewrite H].
Qed.



Section ValidateBalance.

Variable numeric : Type.
Variable to_numeric : float -> numeric.
Variable coalesce_sum : list numeric -> result numeric.
Variable numeric_eq : numeric -> numeric -> bool.

Lemma side_total_side rewardID entryType st :
  ledgerRepo.side_total numeric to_numeric coalesce_sum rewardID entryType st =
    coalesce_sum (map to_numeric (ledger.side rewardID entryType (ledger_entries st))).
Proof. unfold ledgerRepo.side_total, ledger.side. now rewrite map_map. Qed.

(** X11. [ValidateBalance] never reports an imbalance.  With an equality of
    [DECIMAL] values that holds of a value and itself, in every store the
    service can bring about and for every reward identifier, it answers
    [true] with a nil error, or [false] with the error of the driver or of a
    sum that does not fit; it never answers [false] with a nil error, also
    not for a reward whose ledger write failed and left it without entries. *)
Theorem ValidateBalance_never_reports_imbalance st driver rewardID :
  (forall x, numeric_eq x x = true) ->
  reach st ->
  ledgerRepo.ValidateBalance numeric to_numeric coalesce_sum numeric_eq driver rewardID st
    = (true, None) \/
  exists e,
    ledgerRepo.ValidateBalance numeric to_numeric coalesce_sum numeric_eq driver rewardID st
      = (false, Some e) /\
    (driver = Some e \/
     coalesce_sum (map to_numeric (ledger.side rewardID "DEBIT" (ledger_entries st))) = Err e).
Proof.
  intros Hrefl [calls <-].
  pose proof (run_sides calls emptyStore rewardID eq_refl) as Hs.
  unfold ledgerRepo.ValidateBalance, ledgerRepo.validate_ledger_balance.
  rewrite !side_total_side, <- Hs.
  destruct driver as [e|]; [right; eauto|].
  destruct (coalesce_sum _) as [v|e]; [left|right; eauto].
  now rewrite Hrefl.
Qed.

End ValidateBalance.

End Tables.

(** ** Signs *)

Module sign_facts.

Import ieee float64 float64_facts.

Lemma binary_round_aux_opp s m e l :
  binary_round_aux prec emax (negb s) m e l = SFopp (binary_round_aux prec emax s m e l).
Proof.
  unfold binary_round_aux.
  destruct (shr_fexp prec emax m e l) as [mrs' e'].
  destruct (shr_fexp prec emax _ e' loc_Exact) as [mrs'' e''].
  destruct (shr_m mrs''); [reflexivity| |reflexivity].
  now destruct (_ <=? _)%Z.
Qed.

Lemma SFmul_opp_l x y : SF64mul (SFopp x) y = SFopp (SF64mul x y).
Proof.
  unfold SF64mul.
  destruct x as [sx|sx| |sx mx ex], y as [sy|sy| |sy my ey]; cbn [SFopp SFmul];
    try reflexivity; try (now destruct sx, sy).
  rewrite <- binary_round_aux_opp. now destruct sx, sy.
Qed.

Lemma SFabs_opp x : SFabs (SFopp x) = SFabs x.
Proof. now destruct x. Qed.

Lemma binary_round_opp s m e :
  binary_round prec emax (negb s) m e = SFopp (binary_round prec emax s m e).
Proof.
  unfold binary_round. destruct (shl_align m e _) as [mz ez]. apply binary_round_aux_opp.
Qed.

Lemma binary_normalize_opp M e :
  alike (binary_normalize prec emax (- M) e false) (SFopp (binary_normalize prec emax M e false)).
Proof.
  destruct M as [|p|p]; cbn [Z.opp binary_normalize].
  - right. split; eexists; reflexivity.
  - left. apply (binary_round_opp false).
  - left. apply (binary_round_opp true).
Qed.

Lemma cond_Zopp_negb s z : cond_Zopp (negb s) z = (- cond_Zopp s z)%Z.
Proof. destruct s; cbn; lia. Qed.

(** [-x + y] is [-(x - y)], up to the sign of a zero. *)
Lemma SFadd_opp_l x y : alike (SF64add (SFopp x) y) (SFopp (SF64sub x y)).
Proof.
  unfold SF64add, SF64sub.
  destruct x as [sx|sx| |sx mx ex], y as [sy|sy| |sy my ey]; cbn [SFopp SFadd SFsub];
    try (left; reflexivity); try (left; now destruct sx, sy);
    try (left; now destruct sy); try (left; now destruct sx).
  - right. destruct sx, sy; split; eexists; reflexivity.
  - rewrite cond_Zopp_negb.
    replace (- cond_Zopp sx (Zpos (fst (shl_align mx ex (Z.min ex ey)))) +
             cond_Zopp sy (Zpos (fst (shl_align my ey (Z.min ex ey)))))%Z
      with (- (cond_Zopp sx (Zpos (fst (shl_align mx ex (Z.min ex ey)))) -
               cond_Zopp sy (Zpos (fst (shl_align my ey (Z.min ex ey))))))%Z by lia.
    apply binary_normalize_opp.
Qed.

Lemma SFadd_alike x' x f : alike x' (SFopp x) -> alike (SF64add x' f) (SFopp (SF64sub x f)).
Proof.
  intros [->|[[s' ->] [s Hx]]]; [apply SFadd_opp_l|].
  destruct x as [sx|sx| |sx mx ex]; try discriminate.
  unfold SF64add, SF64sub.
  destruct f as [sf|sf| |sf mf ef]; cbn [SFadd SFsub SFopp].
  - right. destruct s', sx, sf; split; eexists; reflexivity.
  - left. now rewrite Bool.negb_involutive.
  - left. reflexivity.
  - left. now rewrite Bool.negb_involutive.
Qed.

Lemma alike_opposite x y : alike (Prim2SF x) (SFopp (Prim2SF y)) -> opposite x y.
Proof.
  intros [H|[[s Hx] [s' Hy]]].
  - left. apply Prim2SF_inj. now rewrite opp_spec.
  - right. rewrite !eq0_SF. destruct (Prim2SF y); try discriminate. rewrite Hx. split; reflexivity.
Qed.

Lemma gt0_opp_lt0 q : gt0 q = true -> lt0 (- q) = true.
Proof.
  rewrite gt0_SF, lt0_SF, opp_spec.
  destruct (Prim2SF q) as [s|s| |s m e]; cbn; try discriminate; now destruct s.
Qed.

Lemma SFidentical_eq x y : SFidentical x y = true -> x = y.
Proof.
  destruct x as [s|s| |s m e], y as [s'|s'| |s' m' e']; cbn; try discriminate; try reflexivity.
  - intros H. apply Bool.eqb_prop in H. now subst.
  - intros H. apply Bool.eqb_prop in H. now subst.
  - intros H. apply andb_prop in H as [H He]. apply andb_prop in H as [Hs Hm].
    apply Bool.eqb_prop in Hs. apply Pos.eqb_eq in Hm. apply Z.eqb_eq in He. now subst.
Qed.

Lemma identical_eq x y : identical x y = true -> x = y.
Proof. intros H. apply Prim2SF_inj. now apply SFidentical_eq. Qed.

End sign_facts.

Section Mirror.

Import services.

Variable rs : RewardService.

(** The fees depend on the magnitude of the gross value only. *)
Lemma fee_of_opposite amount :
  calculateBrokerage rs (- amount) = calculateBrokerage rs amount /\
  calculateTransactionFee rs (- amount) = calculateTransactionFee rs amount.
Proof.
  assert (H : abs (- amount) = abs amount).
  { apply Prim2SF_inj. now rewrite !abs_spec, opp_spec, sign_facts.SFabs_opp. }
  unfold calculateBrokerage, calculateTransactionFee. now rewrite H.
Qed.

(** X14. An adjustment mirrors the reward it takes back: for a positive
    quantity [q] and any unit price, the reward priced for [-q] has the same
    brokerage and transaction fee as the reward priced for [q], the opposite
    gross value and, up to the sign of a zero, the opposite net value. *)
Theorem adjustment_mirrors_reward w w' req req' price :
  float64.gt0 (RewardRequest.Quantity req) = true ->
  RewardRequest.Quantity req' = (- RewardRequest.Quantity req)%float ->
  let reward := newReward rs w req price in
  let adjustment := newReward rs w' req' price in
  models.Reward.TotalValueINR adjustment = (- models.Reward.TotalValueINR reward)%float /\
  models.Reward.BrokerageFee adjustment = models.Reward.BrokerageFee reward /\
  models.Reward.TransactionFee adjustment = models.Reward.TransactionFee reward /\
  float64.opposite (models.Reward.NetValueINR adjustment) (models.Reward.NetValueINR reward).
Proof.
  intros Hq Hq'. cbv zeta. unfold newReward.
  cbn [models.Reward.TotalValueINR models.Reward.BrokerageFee models.Reward.TransactionFee
       models.Reward.NetValueINR].
  rewrite Hq', (sign_facts.gt0_opp_lt0 _ Hq), (float64_facts.gt0_not_lt0 _ Hq).
  assert (Hg : (- RewardRequest.Quantity req * price)%float =
               (- (RewardRequest.Quantity req * price))%float).
  { apply Prim2SF_inj. now rewrite opp_spec, !mul_spec, opp_spec, sign_facts.SFmul_opp_l. }
  rewrite Hg. destruct (fee_of_opposite (RewardRequest.Quantity req * price)) as [-> ->].
  repeat split. apply sign_facts.alike_opposite.
  rewrite !add_spec, !sub_spec, opp_spec.
  apply sign_facts.SFadd_alike, sign_facts.SFadd_opp_l.
Qed.

End Mirror.

(** ** Mock prices *)

Module price_facts.

Import ieee float64 float64_facts ieee_facts.

Local Open Scope R_scope.

(** [binary_round], through which [SFadd] and the conversion of an integer
    round: the packing of a nearest mantissa on the grid of the binade. *)
Lemma binary_round_spec s m e :
  exists m1 e', (0 <= m1 <= 2 ^ 53)%Z /\
    binade (F2R (Zpos m) e) e' /\ nearest (F2R (Zpos m) e) e' m1 /\
    binary_round prec emax s m e = pack s m1 e'.
Proof.
  unfold binary_round.
  pose proof (digits2_pos_bounds m) as [Hd1 Hd2].
  set (d := Zpos (digits2_pos m)) in *.
  set (e0 := fexp prec emax (d + e)).
  assert (He0 : e0 = Z.max (d + e - 53) (-1074)) by apply fexp_eq.
  destruct (Z.lt_ge_cases e0 e) as [Hlt|Hge].
  - destruct (shl_align_spec m e e0 ltac:(lia)) as [Hmz Hez].
    destruct (shl_align m e e0) as [mz ez]. cbn [fst snd] in *. subst ez.
    apply binary_round_aux_spec; [lia| |].
    + cbn [inbetween]. rewrite (F2R_change_exp _ e e0) by lia. now rewrite Hmz.
    + rewrite fexp_eq.
      destruct (Z.eq_dec e0 (-1074)%Z) as [E|E]; [lia|].
      assert (Hshift : (e - e0 = 53 - d)%Z) by lia.
      assert (2 ^ 52 <= Zpos mz)%Z.
      { rewrite Hmz, Hshift. replace 52%Z with ((d - 1) + (53 - d))%Z by lia.
        rewrite Z.pow_add_r by lia. apply Z.mul_le_mono_nonneg_r; [|exact Hd1].
        apply Z.pow_nonneg. lia. }
      assert (52 < Zdigits2 (Zpos mz))%Z by (apply Zdigits2_ge; lia). lia.
  - assert (Hal : shl_align m e e0 = (m, e)).
    { unfold shl_align. destruct (e0 - e)%Z eqn:E; try reflexivity. lia. }
    rewrite Hal. apply binary_round_aux_spec; [lia|reflexivity|].
    fold d. fold e0. change (Zdigits2 (Zpos m)) with d. fold e0. lia.
Qed.

(** The product of a float and a normal positive float. *)
Lemma SFmul_normal s m e c k :
  (2 ^ 52 <= Zpos c)%Z ->
  exists m1 e', (0 <= m1 <= 2 ^ 53)%Z /\
    binade (F2R (Zpos m) e * F2R (Zpos c) k) e' /\
    nearest (F2R (Zpos m) e * F2R (Zpos c) k) e' m1 /\
    SF64mul (S754_finite s m e) (S754_finite false c k) = pack s m1 e'.
Proof.
  intros Hc. unfold SF64mul. cbn [SFmul]. rewrite xorb_false_r.
  apply binary_round_aux_spec; [lia| |].
  - cbn [inbetween]. unfold F2R. rewrite Pos2Z.inj_mul, mult_IZR, bpow_add. lra.
  - assert (52 < Zdigits2 (Zpos (m * c)))%Z by (apply Zdigits2_ge; nia).
    rewrite fexp_eq. lia.
Qed.

(** The sum of two positive floats. *)
Lemma SFadd_pos mx ex my ey :
  exists m1 e', (0 <= m1 <= 2 ^ 53)%Z /\
    binade (F2R (Zpos mx) ex + F2R (Zpos my) ey) e' /\
    nearest (F2R (Zpos mx) ex + F2R (Zpos my) ey) e' m1 /\
    SF64add (S754_finite false mx ex) (S754_finite false my ey) = pack false m1 e'.
Proof.
  unfold SF64add. cbn [SFadd cond_Zopp].
  set (ez := Z.min ex ey).
  destruct (shl_align_spec mx ex ez ltac:(lia)) as [Hx _].
  destruct (shl_align_spec my ey ez ltac:(lia)) as [Hy _].
  set (ax := fst (shl_align mx ex ez)) in *. set (ay := fst (shl_align my ey ez)) in *.
  change (Zpos ax + Zpos ay)%Z with (Zpos (ax + ay)). cbn [binary_normalize].
  assert (E : F2R (Zpos mx) ex + F2R (Zpos my) ey = F2R (Zpos (ax + ay)) ez).
  { rewrite (F2R_change_exp _ ex ez), (F2R_change_exp _ ey ez) by lia.
    rewrite <- Hx, <- Hy. unfold F2R. rewrite Pos2Z.inj_add, plus_IZR. lra. }
  rewrite E. apply binary_round_spec.
Qed.

(** A float of the format above the smallest exponent is normal. *)
Lemma normal_mantissa m e :
  valid_binary (S754_finite false m e) = true -> (-1074 < e)%Z -> (2 ^ 52 <= Zpos m)%Z.
Proof.
  cbn [SpecFloat.valid_binary]. unfold bounded, canonical_mantissa.
  intros H He. apply andb_prop in H as [H1 _]. apply Z.eqb_eq in H1.
  rewrite fexp_eq in H1. pose proof (digits2_pos_bounds m) as [Hd _].
  assert (Zpos (digits2_pos m) = 53)%Z as E by lia. now rewrite E in Hd.
Qed.

(** Comparing two positive floats of the format compares their values. *)
Lemma SFleb_pos m1 e1 m2 e2 :
  valid_binary (S754_finite false m1 e1) = true ->
  valid_binary (S754_finite false m2 e2) = true ->
  F2R (Zpos m1) e1 <= F2R (Zpos m2) e2 ->
  SFleb (S754_finite false m1 e1) (S754_finite false m2 e2) = true.
Proof.
  intros H1 H2 Hle. unfold SFleb. cbn [SFcompare].
  destruct (Z.compare_spec e1 e2) as [->|Hlt|Hgt]; [|reflexivity|exfalso].
  - apply F2R_le_reg in Hle. rewrite Pos.compare_cont_spec. cbn [Pos.switch_Eq].
    destruct (Pos.compare_spec m1 m2) as [?|?|Hgt]; try reflexivity.
    apply Pos2Z.pos_lt_pos in Hgt. lia.
  - destruct (valid_mantissa _ _ _ H2) as [Hm2 He2].
    pose proof (normal_mantissa _ _ H1 ltac:(lia)) as Hm1.
    rewrite (F2R_change_exp _ e1 e2) in Hle by lia. apply F2R_le_reg in Hle.
    assert (2 ^ 1 <= 2 ^ (e1 - e2))%Z by (apply Z.pow_le_mono_r; lia).
    nia.
Qed.

Lemma SFltb_one m e :
  valid_binary (S754_finite false m e) = true ->
  SFltb (S754_finite false m e) (Prim2SF 1) = true -> F2R (Zpos m) e < 1.
Proof.
  intros Hv. destruct (valid_mantissa _ _ _ Hv) as [Hm _].
  change (Prim2SF 1) with (S754_finite false 4503599627370496 (-52)).
  unfold SFltb. cbn [SFcompare].
  assert (E1 : F2R (2 ^ 52) (-52) = 1).
  { rewrite (F2R_bpow 52 (-52)) by lia. reflexivity. }
  destruct (Z.compare_spec e (-52)) as [->|He|He]; [| |discriminate].
  - rewrite Pos.compare_cont_spec. cbn [Pos.switch_Eq].
    destruct (Pos.compare_spec m 4503599627370496) as [?|Hlt|?]; try discriminate; intros _.
    rewrite <- E1. unfold F2R. apply Rmult_lt_compat_r; [apply bpow_pos|]. apply IZR_lt.
    apply Pos2Z.pos_lt_pos in Hlt. exact Hlt.
  - intros _. apply Rlt_le_trans with (bpow (e + 53)).
    + rewrite <- F2R_bpow by lia. unfold F2R.
      apply Rmult_lt_compat_r; [apply bpow_pos|]. now apply IZR_lt.
    + change 1 with (bpow 0). apply bpow_le. lia.
Qed.

Lemma F2R_4900 : F2R 5387606976102400 (-40) = 4900.
Proof.
  unfold F2R. change 5387606976102400%Z with (4900 * 2 ^ 40)%Z.
  rewrite mult_IZR, <- (bpow_IZR 40) by lia.
  assert (bpow 40 * bpow (-40) = 1) by (rewrite <- bpow_add; reflexivity). nra.
Qed.

Lemma F2R_5000 : F2R 5497558138880000 (-40) = 5000.
Proof.
  unfold F2R. change 5497558138880000%Z with (5000 * 2 ^ 40)%Z.
  rewrite mult_IZR, <- (bpow_IZR 40) by lia.
  assert (bpow 40 * bpow (-40) = 1) by (rewrite <- bpow_add; reflexivity). nra.
Qed.

Lemma F2R_pos m e : 0 < F2R (Zpos m) e.
Proof. unfold F2R. apply Rmult_lt_0_compat; [apply IZR_lt; lia|apply bpow_pos]. Qed.

Lemma bpow_13 : bpow 13 = 8192.
Proof. rewrite (bpow_IZR 13) by lia. reflexivity. Qed.

Lemma bpow_19 : bpow 19 = 524288.
Proof. rewrite (bpow_IZR 19) by lia. reflexivity. Qed.

(** A value between two integers is rounded between them. *)
Lemma nearest_between v e m1 A B j :
  binade v e -> nearest v e m1 -> (-1021 <= j <= 53)%Z ->
  IZR A <= v <= IZR B -> v < bpow j ->
  IZR A <= F2R m1 e <= IZR B.
Proof.
  intros Hbin Hn Hj [HA HB] Hv.
  pose proof (binade_below _ _ j Hbin Hv ltac:(lia)) as He.
  rewrite <- (F2R_int A), <- (F2R_int B) in *. split.
  - apply (nearest_ge _ _ _ A 0 Hn); [lia|exact HA].
  - apply (nearest_le _ _ _ B 0 Hn); [lia|exact HB].
Qed.

(** [100 + r*4900] for a draw [0 < r < 1]. *)
Lemma spread mu eu :
  F2R (Zpos mu) eu < 1 ->
  exists mp ep,
    SF64add hundred (SF64mul (S754_finite false mu eu) c4900) = S754_finite false mp ep /\
    100 <= F2R (Zpos mp) ep <= 5000.
Proof.
  intros Hu. pose proof (F2R_pos mu eu) as Hu0.
  destruct (SFmul_normal false mu eu 5387606976102400 (-40) ltac:(lia))
    as (m1 & e1 & Hm1 & Hb1 & Hn1 & E1).
  fold c4900 in E1. rewrite E1. rewrite F2R_4900 in *.
  destruct (nearest_between _ _ _ 0 4900 13 Hb1 Hn1 ltac:(lia)) as [Ht0 Ht1];
    [lra|rewrite bpow_13; lra|].
  destruct (Z.eq_dec m1 0%Z) as [->|Hne].
  - rewrite pack_zero. exists 7036874417766400%positive, (-46)%Z.
    split; [reflexivity|]. rewrite F2R_hundred. lra.
  - destruct (pack_finite false m1 e1 ltac:(lia)) as (mt & et & -> & Hval & _).
    { pose proof (binade_below _ _ 13 Hb1 ltac:(rewrite bpow_13; lra) ltac:(lia)).
      unfold emax, prec. lia. }
    rewrite <- Hval in Ht0, Ht1. unfold hundred.
    destruct (SFadd_pos 7036874417766400 (-46) mt et) as (m2 & e2 & Hm2 & Hb2 & Hn2 & ->).
    rewrite F2R_hundred in *. pose proof (F2R_pos mt et) as Htp.
    destruct (nearest_between _ _ _ 100 5000 13 Hb2 Hn2 ltac:(lia)) as [Hp0 Hp1];
      [lra|rewrite bpow_13; lra|].
    assert (Hm2' : (0 < m2)%Z).
    { apply (F2R_lt_reg _ _ e2). unfold F2R at 1. rewrite Rmult_0_l. lra. }
    destruct (pack_finite false m2 e2 ltac:(lia)) as (mp & ep & -> & Hvalp & _).
    { pose proof (binade_below _ _ 13 Hb2 ltac:(rewrite bpow_13; lra) ltac:(lia)).
      unfold emax, prec. lia. }
    exists mp, ep. split; [reflexivity|]. rewrite Hvalp. lra.
Qed.

(** The integer part of a positive float with a negative exponent. *)
Lemma shiftl_floor m e :
  (e < 0)%Z ->
  IZR (Z.shiftl (Zpos m) e) <= F2R (Zpos m) e < IZR (Z.shiftl (Zpos m) e) + 1.
Proof.
  intros He. rewrite Z.shiftl_div_pow2 by lia.
  assert (Hp : (0 < 2 ^ (- e))%Z) by (apply Z.pow_pos_nonneg; lia).
  pose proof (Z.div_mod (Zpos m) (2 ^ (- e)) ltac:(lia)) as Hd.
  pose proof (Z.mod_pos_bound (Zpos m) (2 ^ (- e)) Hp) as Hmod.
  set (N := (Zpos m / 2 ^ (- e))%Z) in *. set (r := (Zpos m mod 2 ^ (- e))%Z) in *.
  unfold F2R.
  assert (Hb : bpow e * IZR (2 ^ (- e)) = 1).
  { rewrite <- bpow_IZR, <- bpow_add by lia. replace (e + - e)%Z with 0%Z by lia. reflexivity. }
  pose proof (bpow_pos e) as Hb0.
  assert (H1 : IZR (Zpos m) = IZR (2 ^ (- e)) * IZR N + IZR r)
    by (rewrite <- mult_IZR, <- plus_IZR; now f_equal).
  assert (H3 : 0 <= IZR r < IZR (2 ^ (- e))) by (split; [apply IZR_le|apply IZR_lt]; lia).
  rewrite H1. set (P := IZR (2 ^ (- e))) in *. set (b := bpow e) in *. clearbody P b.
  assert (E : (P * IZR N + IZR r) * b = IZR N * (b * P) + IZR r * b) by ring.
  rewrite E, Hb. split; nra.
Qed.

(** [int(price*100)] for a price between 100 and 5000. *)
Lemma cents_of_price mp ep :
  100 <= F2R (Zpos mp) ep <= 5000 ->
  exists mq eq,
    SF64mul (S754_finite false mp ep) hundred = S754_finite false mq eq /\
    (eq < 0)%Z /\ (10000 <= Z.shiftl (Zpos mq) eq <= 500000)%Z.
Proof.
  intros Hp.
  destruct (SFmul_hundred false mp ep) as (m3 & e3 & Hm3 & Hb3 & Hn3 & ->).
  destruct (nearest_between _ _ _ 10000 500000 19 Hb3 Hn3 ltac:(lia)) as [Hq0 Hq1];
    [lra|rewrite bpow_19; lra|].
  pose proof (binade_below _ _ 19 Hb3 ltac:(rewrite bpow_19; lra) ltac:(lia)) as He3.
  assert (Hm3' : (0 < m3)%Z).
  { apply (F2R_lt_reg _ _ e3). unfold F2R at 1. rewrite Rmult_0_l. lra. }
  destruct (pack_finite false m3 e3 ltac:(lia) ltac:(unfold emax, prec; lia))
    as (mq & eq & -> & Hvalq & Heq).
  exists mq, eq. split; [reflexivity|]. split; [lia|].
  pose proof (shiftl_floor mq eq ltac:(lia)) as [Hf0 Hf1]. rewrite Hvalq in *.
  split.
  - assert (10000 < Z.shiftl (Zpos mq) eq + 1)%Z by (apply lt_IZR; rewrite plus_IZR; lra). lia.
  - apply le_IZR. lra.
Qed.

(** The float of a number of cents, divided by one hundred: it lies between
    the integers the quotient lies between, and [roundToTwoDecimals] leaves
    it as it is. *)
Lemma price_of_cents N A B :
  (0 < N <= 100 * 2 ^ 44)%Z -> IZR A <= IZR N / 100 <= IZR B ->
  exists my ey,
    SF64div (binary_normalize prec emax N 0 false) hundred = S754_finite false my ey /\
    IZR A <= F2R (Zpos my) ey <= IZR B /\
    SFround2 (S754_finite false my ey) = S754_finite false my ey.
Proof.
  intros HN HAB.
  assert (HN1 : 1 <= IZR N) by (apply IZR_le; lia).
  assert (HN2 : IZR N <= 1759218604441600) by (apply IZR_le; lia).
  assert (Hv51 : IZR N / 100 < bpow 51).
  { rewrite (bpow_IZR 51) by lia. change (IZR (2 ^ 51)) with 2251799813685248. lra. }
  destruct (div_scaled false N HN) as (my & ey & HY & Hy). cbn [cond_Zopp] in HY.
  exists my, ey. split; [exact HY|]. split.
  - destruct (binary_normalize_int false N ltac:(lia)) as (mr & er & E & Hval & Hmr & Her & _).
    cbn [cond_Zopp] in E. rewrite E in HY.
    destruct (SFdiv_hundred false mr er Hmr ltac:(lia)) as (m2 & e2 & Hm2 & Hbin & Hn & E2).
    rewrite Hval in *.
    destruct (nearest_between _ _ _ A B 51 Hbin Hn ltac:(lia) HAB Hv51) as [H0 H1].
    assert (Hm2' : (0 < m2)%Z).
    { apply (F2R_lt_reg _ _ e2). unfold F2R at 1. rewrite Rmult_0_l.
      destruct Hn as (Herr & _). apply Rabs_le_bounds in Herr.
      destruct Hbin as (Hemin & Hup & Hlo).
      destruct Hlo as [->|Hlo].
      - exfalso. pose proof (bpow_le (-1074 + 53) (-7) ltac:(lia)) as H7.
        change (bpow (-7)) with (/ (2 * (2 * (2 * (2 * (2 * (2 * (2 * 1)))))))) in H7. lra.
      - rewrite bpow_add, (bpow_IZR 52) in Hlo by lia.
        pose proof (bpow_pos e2). change (IZR (2 ^ 52)) with 4503599627370496 in Hlo. nra. }
    pose proof (binade_below _ _ 51 Hbin Hv51 ltac:(lia)) as He2.
    destruct (pack_finite false m2 e2 ltac:(lia) ltac:(unfold emax, prec; lia))
      as (my' & ey' & E3 & Hmy & _).
    rewrite E2, E3 in HY. injection HY as <- <-. rewrite Hmy. lra.
  - unfold SFround2.
    destruct (round_scaled false my ey (4 * N - 1) (4 * N + 1) ltac:(lia) ltac:(lia))
      as (N' & z' & HR' & HN0' & Hz' & HNz').
    { rewrite minus_IZR, plus_IZR, mult_IZR. lra. }
    rewrite minus_IZR, plus_IZR, mult_IZR in Hz'.
    assert (N' = N) as ->.
    { assert (N' < N + 1)%Z by (apply lt_IZR; rewrite plus_IZR; lra).
      assert (N - 1 < N')%Z by (apply lt_IZR; rewrite minus_IZR; lra). lia. }
    rewrite HR'. exact HY.
Qed.

Lemma of_int_spec N :
  (0 < N < 2 ^ 53)%Z -> Prim2SF (float64.of_int N) = binary_normalize prec emax N 0 false.
Proof.
  intros HN. unfold float64.of_int. apply Prim2SF_SF2Prim.
  destruct (binary_normalize_int false N HN) as (m & e & E & _ & _ & _ & Hv).
  cbn [cond_Zopp] in E. now rewrite E.
Qed.

Lemma int_spec x m e :
  Prim2SF x = S754_finite false m e -> (e < 0)%Z ->
  (10000 <= Z.shiftl (Zpos m) e <= 500000)%Z ->
  float64.int x = Z.shiftl (Zpos m) e.
Proof.
  intros E He HN. unfold float64.int. rewrite E. cbn [cond_Zopp].
  replace ((- 2 ^ 63 <=? Z.shiftl (Zpos m) e)%Z) with true by (symmetry; apply Z.leb_le; lia).
  replace ((Z.shiftl (Zpos m) e <? 2 ^ 63)%Z) with true by (symmetry; apply Z.ltb_lt; lia).
  reflexivity.
Qed.

(** The arithmetic of [generateMockPrice] with the default range, for a draw
    in [[0, 1)]. *)
Lemma mockPrice_spec (s : services.PriceService) (r : float) :
  services.minPrice s = 100%float -> services.maxPrice s = 5000%float ->
  (0 <=? r)%float = true -> (r <? 1)%float = true ->
  (100 <=? services.mockPrice s r)%float = true /\
  (services.mockPrice s r <=? 5000)%float = true /\
  services.roundToTwoDecimals (services.mockPrice s r) = services.mockPrice s r.
Proof.
  intros Hmin Hmax H0 H1. unfold services.mockPrice. rewrite Hmin, Hmax.
  change (5000 - 100)%float with 4900%float.
  rewrite FloatAxioms.leb_spec in H0. rewrite FloatAxioms.ltb_spec in H1.
  pose proof (Prim2SF_valid r) as Hvr.
  assert (Hprice : Prim2SF (100 + r * 4900) = SF64add hundred (SF64mul (Prim2SF r) c4900)).
  { now rewrite add_spec, mul_spec, Prim2SF_100. }
  set (price := (100 + r * 4900)%float) in *.
  assert (Hcases : price = 100%float \/
                   exists mp ep, Prim2SF price = S754_finite false mp ep /\
                                 100 <= F2R (Zpos mp) ep <= 5000).
  { destruct (Prim2SF r) as [s0|s0| |s0 mu eu]; try discriminate.
    - left. apply Prim2SF_inj. rewrite Hprice. now destruct s0.
    - destruct s0; discriminate.
    - destruct s0; [discriminate|]. right.
      destruct (spread mu eu (SFltb_one mu eu Hvr H1)) as (mp & ep & E & Hb).
      exists mp, ep. now rewrite Hprice. }
  destruct Hcases as [-> | (mp & ep & Ep & Hb)].
  { split; [vm_compute; reflexivity|]. split; vm_compute; reflexivity. }
  destruct (cents_of_price mp ep Hb) as (mq & eq & Eq & Heq & HN).
  assert (Hq : Prim2SF (price * 100) = S754_finite false mq eq).
  { now rewrite mul_spec, Ep, Prim2SF_100. }
  rewrite (int_spec _ mq eq Hq Heq HN).
  set (N := Z.shiftl (Zpos mq) eq) in *.
  destruct (price_of_cents N 100 5000 ltac:(lia)) as (my & ey & Ey & Hy & Hfix).
  { assert (10000 <= IZR N) by (apply IZR_le; lia).
    assert (IZR N <= 500000) by (apply IZR_le; lia). lra. }
  assert (Hres : Prim2SF (float64.of_int N / 100) = S754_finite false my ey).
  { now rewrite div_spec, of_int_spec, Prim2SF_100 by lia. }
  pose proof (Prim2SF_valid (float64.of_int N / 100)) as Hv. rewrite Hres in Hv.
  split; [|split].
  - rewrite FloatAxioms.leb_spec, Hres, Prim2SF_100. unfold hundred.
    apply SFleb_pos; [exact (Prim2SF_valid 100)|exact Hv|]. rewrite F2R_hundred. lra.
  - rewrite FloatAxioms.leb_spec, Hres.
    change (Prim2SF 5000) with c5000. unfold c5000.
    apply SFleb_pos; [exact Hv|exact (Prim2SF_valid 5000)|]. rewrite F2R_5000. lra.
  - apply Prim2SF_inj. now rewrite roundToTwoDecimals_spec, Hres.
Qed.

End price_facts.

Section PriceService.

Import services.

Variable os_Getenv : string -> string.
Variable strconv_ParseFloat : string -> option float.
Variable runes : string -> list Z.
Variable rand_Float64 : Z -> float.

(** X15. With the default range, every price [generateMockPrice] returns lies
    between 100 and 5000, whatever the symbol, the clock and the draw of the
    random source in [[0, 1)], and it has no more than two decimals:
    [roundToTwoDecimals] leaves it as it is. *)
Theorem generateMockPrice_in_default_range (s : PriceService) now symbol :
  (forall seed, (0 <=? rand_Float64 seed)%float = true /\ (rand_Float64 seed <? 1)%float = true) ->
  minPrice s = 100%float -> maxPrice s = 5000%float ->
  let price := generateMockPrice runes rand_Float64 s now symbol in
  (100 <=? price)%float = true /\ (price <=? 5000)%float = true /\
  roundToTwoDecimals price = price.
Proof.
  intros Hrand Hmin Hmax. cbv zeta. unfold generateMockPrice.
  destruct (Hrand (float64.int64
                     (fold_left (fun seed c => float64.int64 (seed + c)) (runes symbol) 0%Z + now)))
    as [H0 H1].
  now apply price_facts.mockPrice_spec.
Qed.

Lemma listed_spec symbol stocks : listed symbol stocks = true <-> symbol ∈ stocks.
Proof.
  induction stocks as [|existing stocks IH]; cbn.
  - split; [discriminate|]. intros H. now apply elem_of_nil in H.
  - rewrite elem_of_cons. destruct (String.eqb_spec existing symbol) as [->|Hne].
    + split; auto.
    + rewrite IH. split; [auto|]. intros [->|H]; [congruence|exact H].
Qed.

(** The symbols a service quotes after a sequence of [AddStock] calls. *)
Lemma AddStock_fold symbols : forall s,
  NoDup (stocks s) ->
  let s' := fold_left (fun s symbol => fst (AddStock symbol s)) symbols s in
  NoDup (stocks s') /\ stocks s `prefix_of` stocks s' /\
  (forall symbol, symbol ∈ stocks s' <-> symbol ∈ stocks s \/ symbol ∈ symbols) /\
  minPrice s' = minPrice s /\ maxPrice s' = maxPrice s.
Proof.
  induction symbols as [|symbol symbols IH]; intros s Hs; cbn [fold_left]; cbv zeta.
  - split; [exact Hs|]. split; [done|]. split; [|done].
    intros symbol. rewrite elem_of_nil. tauto.
  - set (s1 := fst (AddStock symbol s)).
    assert (H1 : NoDup (stocks s1) /\ stocks s `prefix_of` stocks s1 /\
                 (forall x, x ∈ stocks s1 <-> x ∈ stocks s \/ x = symbol) /\
                 minPrice s1 = minPrice s /\ maxPrice s1 = maxPrice s).
    { unfold s1, AddStock. destruct (listed symbol (stocks s)) eqn:E; cbn.
      - apply listed_spec in E. split; [exact Hs|]. split; [done|]. split; [|done].
        intros x. split; [auto|]. intros [H| ->]; auto.
      - split.
        + apply NoDup_app. split; [exact Hs|]. split; [|apply NoDup_singleton].
          intros x Hx Hx'. apply list_elem_of_singleton in Hx'. subst x.
          apply listed_spec in Hx. congruence.
        + split; [now apply prefix_app_r|]. split; [|done].
          intros x. now rewrite elem_of_app, list_elem_of_singleton. }
    destruct H1 as (N1 & P1 & M1 & Lo1 & Hi1).
    destruct (IH s1 N1) as (N2 & P2 & M2 & Lo2 & Hi2). cbv zeta in *.
    split; [exact N2|]. split; [etrans; eauto|]. split; [|split; congruence].
    intros x. rewrite M2, M1, elem_of_cons. tauto.
Qed.

(** X16. Whatever symbols are added to a new price service, in whatever
    order and however often, [GetSupportedStocks] lists the ten default
    symbols first and every added symbol once, and it lists nothing else;
    adding a symbol that is listed changes nothing and logs nothing. *)
Theorem AddStock_lists_each_symbol_once symbols :
  let new := NewPriceService os_Getenv strconv_ParseFloat in
  let s := fold_left (fun s symbol => fst (AddStock symbol s)) symbols new in
  NoDup (GetSupportedStocks s) /\
  GetSupportedStocks new `prefix_of` GetSupportedStocks s /\
  (forall symbol,
     symbol ∈ GetSupportedStocks s <-> symbol ∈ GetSupportedStocks new \/ symbol ∈ symbols) /\
  (forall symbol, symbol ∈ GetSupportedStocks s -> AddStock symbol s = (s, [])).
Proof.
  cbv zeta. unfold GetSupportedStocks.
  destruct (AddStock_fold symbols (NewPriceService os_Getenv strconv_ParseFloat))
    as (H1 & H2 & H3 & _).
  { cbn. repeat (apply NoDup_cons_2; [rewrite ?elem_of_cons, elem_of_nil; intros H;
      repeat (destruct H as [H|H]; [discriminate H|]); exact H|]). apply NoDup_nil_2. }
  cbv zeta in *. split; [exact H1|]. split; [exact H2|]. split; [exact H3|].
  intros symbol Hin. apply listed_spec in Hin. unfold AddStock at 1. now rewrite Hin.
Qed.

End PriceService.

(** ** The further properties at the worked example *)

Lemma reachable_processed :
  reachable demo.fmt_f demo.fmt_d demo.json_Marshal_request demo.json_Marshal_response
    demo.json_Unmarshal_response demo.rs demo.processed.
Proof. exists [(demo.w_ok, demo.req)]. vm_compute; reflexivity. Qed.

Lemma reachable_empty :
  reachable demo.fmt_f demo.fmt_d demo.json_Marshal_request demo.json_Marshal_response
    demo.json_Unmarshal_response demo.rs services.emptyStore.
Proof. exists []. reflexivity. Qed.

Lemma fresh_request_is_processed_witness :
  fst (demo.process demo.w_ok demo.req services.emptyStore) = services.Ok demo.response /\
  services.rewards (snd (demo.process demo.w_ok demo.req services.emptyStore))
    = services.rewards services.emptyStore ++ [demo.reward] /\
  services.ledger_entries (snd (demo.process demo.w_ok demo.req services.emptyStore))
    = services.ledger_entries services.emptyStore
        ++ services.ledgerEntries demo.fmt_f demo.reward /\
  services.reward_requests (snd (demo.process demo.w_ok demo.req services.emptyStore))
    = <[services.RewardRequest.EventID demo.req :=
          services.rewardRequestRepo.completed demo.w_ok
            (services.payload_string (demo.json_Marshal_response demo.response))
            (services.pending demo.json_Marshal_request demo.w_ok services.emptyStore demo.req)]>
        (services.reward_requests services.emptyStore).
Proof.
  apply (fresh_request_is_processed demo.fmt_f demo.fmt_d demo.json_Marshal_request
           demo.json_Marshal_response demo.json_Unmarshal_response demo.rs
           demo.w_ok demo.req services.emptyStore 175.5%float).
  - exact reachable_empty.
  - vm_compute; reflexivity.
  - reflexivity.
  - reflexivity.
  - reflexivity.
  - reflexivity.
  - reflexivity.
  - reflexivity.
  - reflexivity.
Defined.

Lemma failed_call_names_its_step_witness :
  fst (demo.process demo.w_price_down demo.req services.emptyStore)
    = services.Err "failed to get stock price: no price" /\
  gate.status (services.reward_requests demo.stuck) "EVT-2024-001" = Some "PROCESSING" /\
  services.rewards demo.stuck = [].
Proof.
  assert (E : fst (demo.process demo.w_price_down demo.req services.emptyStore)
              = services.Err "failed to get stock price: no price")
    by (vm_compute; reflexivity).
  split; [exact E|].
  destruct (failed_call_names_its_step demo.fmt_f demo.fmt_d demo.json_Marshal_request
              demo.json_Marshal_response demo.json_Unmarshal_response demo.rs
              demo.w_price_down demo.req services.emptyStore _ E)
    as [[_ H]|(Hr & _ & _ & Hq & _)].
  - exfalso.
    destruct H as [(msg & H & _)|[(_ & r & H)|[(e & H & _)|[(H & _)|(e & H)]]]];
      vm_compute in H; discriminate H.
  - split; [|exact Hr]. unfold gate.status, demo.stuck.
    fold demo.process in Hq |- *. rewrite Hq, lookup_insert_eq. reflexivity.
Defined.

Lemma unrecorded_completion_blocks_replay_witness :
  fst (demo.process demo.w_mark_down demo.req services.emptyStore) = services.Ok demo.response /\
  Forall (fun o => services.RewardRequest.EventID (fst o) = "EVT-2024-001" ->
                   exists err, snd o = services.Err err)
         (fst (run demo.fmt_f demo.fmt_d demo.json_Marshal_request demo.json_Marshal_response
                 demo.json_Unmarshal_response demo.rs [(demo.w_ok, demo.req)]
                 (snd (demo.process demo.w_mark_down demo.req services.emptyStore)))).
Proof.
  assert (Hv : services.validateRequest demo.req = None) by (vm_compute; reflexivity).
  destruct (unrecorded_completion_blocks_replay demo.fmt_f demo.fmt_d demo.json_Marshal_request
              demo.json_Marshal_response demo.json_Unmarshal_response demo.rs
              demo.w_mark_down demo.req services.emptyStore 175.5%float "connection reset"
              [(demo.w_ok, demo.req)] reachable_empty Hv)
    as (H1 & _ & _ & _ & H5); try reflexivity.
  split; [exact H1|exact H5].
Defined.

Lemma duplicate_submission_returns_original_witness :
  fst (demo.process demo.w_ok demo.req (snd (demo.process demo.w_ok demo.req services.emptyStore)))
    = services.Ok (services.RewardResponse.set_Message
                     "Duplicate request - returning previous result" demo.response).
Proof.
  apply (duplicate_submission_returns_original demo.fmt_f demo.fmt_d demo.json_Marshal_request
           demo.json_Marshal_response demo.json_Unmarshal_response demo.rs
           demo.w_ok demo.w_ok demo.req services.emptyStore demo.response "{response}").
  - reflexivity.
  - vm_compute; reflexivity.
  - reflexivity.
  - reflexivity.
  - reflexivity.
  - reflexivity.
Defined.

Lemma same_response_eq a b : demo.same_response a b = true -> a = b.
Proof.
  unfold demo.same_response. intros H.
  repeat match type of H with (_ && _ = true) => apply andb_prop in H as [H ?] end.
  repeat match goal with
         | H : Z.eqb _ _ = true |- _ => apply Z.eqb_eq in H
         | H : String.eqb _ _ = true |- _ => apply String.eqb_eq in H
         | H : float64.identical _ _ = true |- _ => apply sign_facts.identical_eq in H
         end.
  destruct a, b. cbn in *. congruence.
Qed.

Lemma known_codec_round_trip x payload :
  demo.json_Marshal_known x = Some payload -> demo.json_Unmarshal_response payload = Some x.
Proof.
  unfold demo.json_Marshal_known. destruct (demo.same_response x demo.response) eqn:E; [|discriminate].
  intros [= <-]. apply same_response_eq in E. now subst x.
Qed.

Lemma answers_to_an_event_agree_witness :
  services.RewardResponse.set_Message "Duplicate request - returning previous result" demo.response
    = services.RewardResponse.set_Message "Duplicate request - returning previous result"
        demo.response.
Proof.
  apply (answers_to_an_event_agree demo.fmt_f demo.fmt_d demo.json_Marshal_request
           demo.json_Marshal_known demo.json_Unmarshal_response demo.rs
           [(demo.w_ok, demo.req); (demo.w_ok, demo.req)] services.emptyStore 0%nat 1%nat
           demo.req demo.req demo.response).
  - exact known_codec_round_trip.
  - reflexivity.
  - lia.
  - vm_compute; reflexivity.
  - vm_compute; reflexivity.
  - reflexivity.
Defined.

Lemma no_event_is_rewarded_twice_witness :
  NoDup (map models.Reward.EventID (services.rewards demo.processed)) /\
  NoDup (map models.Reward.ID (services.rewards demo.processed)) /\
  (forall r, r ∈ services.rewards demo.processed ->
     exists rec, services.reward_requests demo.processed !! models.Reward.EventID r = Some rec /\
                 reserved_by rec r).
Proof.
  exact (no_event_is_rewarded_twice demo.fmt_f demo.fmt_d demo.json_Marshal_request
           demo.json_Marshal_response demo.json_Unmarshal_response demo.rs demo.processed
           reachable_processed).
Defined.

Lemma processed_record :
  services.reward_requests demo.processed !! "EVT-2024-001" =
    Some (services.rewardRequestRepo.completed demo.w_ok "{response}"
            (services.pending demo.json_Marshal_request demo.w_ok services.emptyStore demo.req)).
Proof. vm_compute; reflexivity. Qed.

Lemma completed_record_has_its_reward_witness :
  exists r w, r ∈ services.rewards demo.processed /\ models.Reward.EventID r = "EVT-2024-001" /\
    reserved_by (services.rewardRequestRepo.completed demo.w_ok "{response}"
                   (services.pending demo.json_Marshal_request demo.w_ok services.emptyStore
                      demo.req)) r /\
    models.RewardRequest.ResponsePayload
      (services.rewardRequestRepo.completed demo.w_ok "{response}"
         (services.pending demo.json_Marshal_request demo.w_ok services.emptyStore demo.req)) =
      Some (services.payload_string (demo.json_Marshal_response (services.newResponse w r))).
Proof.
  apply (completed_record_has_its_reward demo.fmt_f demo.fmt_d demo.json_Marshal_request
           demo.json_Marshal_response demo.json_Unmarshal_response demo.rs demo.processed
           "EVT-2024-001" _ reachable_processed processed_record).
  reflexivity.
Defined.

Lemma ledger_entries_belong_to_rewards_witness :
  Forall (fun e => exists r, r ∈ services.rewards demo.processed /\
                     e ∈ services.ledgerEntries demo.fmt_f r /\
                     models.LedgerEntry.RewardID e = models.Reward.ID r /\
                     models.LedgerEntry.UserID e = models.Reward.UserID r /\
                     models.LedgerEntry.ReferenceID e = Some (models.Reward.EventID r))
         (services.ledger_entries demo.processed).
Proof.
  apply Forall_forall. intros e He.
  exact (ledger_entries_belong_to_rewards demo.fmt_f demo.fmt_d demo.json_Marshal_request
           demo.json_Marshal_response demo.json_Unmarshal_response demo.rs demo.processed e
           reachable_processed He).
Defined.

Lemma stored_ledger_balances_per_reward_witness :
  ledger.side 1 "DEBIT" (services.ledger_entries demo.processed) =
    ledger.side 1 "CREDIT" (services.ledger_entries demo.processed) /\
  ledger.sum (ledger.side 1 "DEBIT" (services.ledger_entries demo.processed)) =
    ledger.sum (ledger.side 1 "CREDIT" (services.ledger_entries demo.processed)).
Proof.
  exact (stored_ledger_balances_per_reward demo.fmt_f demo.fmt_d demo.json_Marshal_request
           demo.json_Marshal_response demo.json_Unmarshal_response demo.rs demo.processed 1
           reachable_processed).
Defined.

Lemma ValidateBalance_never_reports_imbalance_witness :
  services.ledgerRepo.ValidateBalance Z demo.to_numeric demo.coalesce_sum Z.eqb None 1
    demo.processed = (true, None) \/
  exists e,
    services.ledgerRepo.ValidateBalance Z demo.to_numeric demo.coalesce_sum Z.eqb None 1
      demo.processed = (false, Some e) /\
    (None = Some e \/
     demo.coalesce_sum
       (map demo.to_numeric (ledger.side 1 "DEBIT" (services.ledger_entries demo.processed)))
       = services.Err e).
Proof.
  exact (ValidateBalance_never_reports_imbalance demo.fmt_f demo.fmt_d demo.json_Marshal_request
           demo.json_Marshal_response demo.json_Unmarshal_response demo.rs
           Z demo.to_numeric demo.coalesce_sum Z.eqb demo.processed None 1
           Z.eqb_refl reachable_processed).
Defined.



Lemma adjustment_mirrors_reward_witness :
  let reward := services.newReward demo.rs demo.w_ok demo.req 175.5 in
  let adjustment := services.newReward demo.rs demo.w_ok demo.clawback 175.5 in
  models.Reward.TotalValueINR adjustment = (- models.Reward.TotalValueINR reward)%float /\
  models.Reward.BrokerageFee adjustment = models.Reward.BrokerageFee reward /\
  models.Reward.TransactionFee adjustment = models.Reward.TransactionFee reward /\
  float64.opposite (models.Reward.NetValueINR adjustment) (models.Reward.NetValueINR reward).
Proof.
  apply (adjustment_mirrors_reward demo.rs demo.w_ok demo.w_ok demo.req demo.clawback 175.5).
  - vm_compute; reflexivity.
  - vm_compute; reflexivity.
Defined.

Lemma generateMockPrice_in_default_range_witness :
  let price := services.generateMockPrice demo.runes demo.rand_Float64 demo.prices
                 1700000000 "AAPL" in
  (100 <=? price)%float = true /\ (price <=? 5000)%float = true /\
  services.roundToTwoDecimals price = price.
Proof.
  apply (generateMockPrice_in_default_range demo.runes demo.rand_Float64 demo.prices).
  - intros seed. split; reflexivity.
  - reflexivity.
  - reflexivity.
Defined.
